(** * Contact manager (task2.py): shallow embedding and verified properties

    The development follows the layout of the program:
    - [PyStr]: the built-in string operations the program calls
      ([isdigit], [lower], [split], [strip], [capitalize], [join]);
    - [Exc]: exceptions, results and the state-and-exception monad in which
      the methods and handlers run;
    - [Datetime], [Strptime]: the parts of the [datetime] library used by
      [Birthday] and [get_birthdays_per_week];
    - [Fields], [Rec], [Book], [Handlers], [Main]: the classes [Field],
      [Name], [Phone], [Birthday], [Record] and [AddressBook], the command
      handlers, [parse_input] and one turn of the loop of [main];
    - [Spec]: the notions the properties are stated with;
    - the theorems, one group per component.

    A Python string is modelled by a [string] whose characters are Unicode
    code points below 256; on that domain the string operations below agree
    with the interpreter's.  [capitalize] can leave the domain, so text handed
    to [print] is a list of code points ([text]). *)

From Stdlib Require Import String Ascii List ZArith NArith Bool Lia.
Import ListNotations.
Local Open Scope string_scope.

(* ================================================================== *)
(** * Definitions *)
(* ================================================================== *)

(** ** Built-in string operations *)

Module PyStr.

Definition code (c : ascii) : N := N_of_ascii c.

Definition between (lo hi n : N) : bool := ((lo <=? n) && (n <=? hi))%N.

(** [str.isdigit] holds of the characters whose Unicode numeric type is
    Decimal or Digit: below 256 these are 0-9 and the superscripts
    U+00B2, U+00B3 and U+00B9. *)
Definition isdigit_char (c : ascii) : bool :=
  let n := code c in
  between 48 57 n || (n =? 178)%N || (n =? 179)%N || (n =? 185)%N.

(** [s.isdigit()]: at least one character and every character a digit. *)
Definition isdigit (s : string) : bool :=
  match s with
  | EmptyString => false
  | _ => forallb isdigit_char (list_ascii_of_string s)
  end.

(** Whitespace as [str.split] and [str.strip] see it: TAB, LF, VT, FF, CR,
    U+001C-U+001F, space, U+0085 and U+00A0. *)
Definition isspace_char (c : ascii) : bool :=
  let n := code c in
  between 9 13 n || between 28 32 n || (n =? 133)%N || (n =? 160)%N.

(** Lower-casing: A-Z and U+00C0-U+00DE (the multiplication sign U+00D7
    apart) move up by 32, every other character stays. *)
Definition lower_char (c : ascii) : ascii :=
  let n := code c in
  if between 65 90 n || (between 192 222 n && negb (n =? 215)%N)
  then ascii_of_N (n + 32)
  else c.

Fixpoint lower (s : string) : string :=
  match s with
  | EmptyString => EmptyString
  | String c s' => String (lower_char c) (lower s')
  end.

(** [s.split()] without separator: maximal runs of non-whitespace. *)
Definition flush (w : string) (l : list string) : list string :=
  match w with
  | EmptyString => l
  | _ => w :: l
  end.

Fixpoint split_from (w s : string) : list string :=
  match s with
  | EmptyString => flush w []
  | String c s' =>
      if isspace_char c then flush w (split_from EmptyString s')
      else split_from (w ++ String c EmptyString) s'
  end.

Definition split (s : string) : list string := split_from EmptyString s.

Fixpoint lstrip (s : string) : string :=
  match s with
  | EmptyString => EmptyString
  | String c s' => if isspace_char c then lstrip s' else s
  end.

Fixpoint rstrip (s : string) : string :=
  match s with
  | EmptyString => EmptyString
  | String c s' =>
      match rstrip s' with
      | EmptyString => if isspace_char c then EmptyString else String c EmptyString
      | t => String c t
      end
  end.

Definition strip (s : string) : string := rstrip (lstrip s).

(** [sep.join(l)] *)
Definition join (sep : string) (l : list string) : string := String.concat sep l.

(** Text that may contain any code point. *)
Definition text := list N.

Definition T (s : string) : text := map code (list_ascii_of_string s).

(** Title-casing of one character, as [capitalize] applies it to the first
    character: U+00B5 goes to U+039C, U+00DF to the two letters Ss and
    U+00FF to U+0178. *)
Definition title_char (c : ascii) : text :=
  let n := code c in
  if between 97 122 n then [n - 32]%N
  else if (n =? 181)%N then [924%N]
  else if (n =? 223)%N then [83%N; 115%N]
  else if between 224 254 n && negb (n =? 247)%N then [n - 32]%N
  else if (n =? 255)%N then [376%N]
  else [n].

Definition capitalize (s : string) : text :=
  match s with
  | EmptyString => []
  | String c s' => (title_char c ++ T (lower s'))%list
  end.

(** [sep.join(l)] on texts. *)
Fixpoint join_text (sep : text) (l : list text) : text :=
  match l with
  | [] => []
  | [x] => x
  | x :: l' => (x ++ sep ++ join_text sep l')%list
  end.

End PyStr.

(** ** Exceptions and the monad of methods and handlers *)

Module Exc.

Inductive exn : Type :=
| ValueError (msg : string)
| KeyError (key : string)
| IndexError (msg : string)
| OverflowError (msg : string)
| PhoneValidationError (msg : string)
| BirthdayError (msg : string).

(** [str(e)] *)
Definition exn_str (e : exn) : string :=
  match e with
  | ValueError m | KeyError m | IndexError m | OverflowError m
  | PhoneValidationError m | BirthdayError m => m
  end.

Inductive result (A : Type) : Type :=
| Ok (a : A)
| Raise (e : exn).
Arguments Ok {A} a.
Arguments Raise {A} e.

Definition rbind {A B} (r : result A) (k : A -> result B) : result B :=
  match r with
  | Ok a => k a
  | Raise e => Raise e
  end.

(** A computation over a mutable object of type [S]: it ends with a value
    or with an exception, and in both cases leaves a state behind. *)
Definition M (S A : Type) : Type := S -> result A * S.

Definition ret {S A} (a : A) : M S A := fun s => (Ok a, s).

Definition bind {S A B} (m : M S A) (k : A -> M S B) : M S B :=
  fun s =>
    match m s with
    | (Ok a, s') => k a s'
    | (Raise e, s') => (Raise e, s')
    end.

Definition raise {S A} (e : exn) : M S A := fun s => (Raise e, s).

Definition lift {S A} (r : result A) : M S A := fun s => (r, s).

Definition get {S} : M S S := fun s => (Ok s, s).

Definition modify {S} (f : S -> S) : M S unit := fun s => (Ok tt, f s).

(** [try: body except ...:]; the handler answers [None] for the
    exceptions no clause matches, which then propagate. *)
Definition try_except {S A} (body : M S A) (handler : exn -> option (M S A))
  : M S A :=
  fun s =>
    match body s with
    | (Ok a, s') => (Ok a, s')
    | (Raise e, s') =>
        match handler e with
        | Some h => h s'
        | None => (Raise e, s')
        end
    end.

End Exc.

Declare Scope py_scope.
Delimit Scope py_scope with py.
Notation "x <- m ;; k" := (Exc.bind m (fun x => k))
  (at level 61, m at next level, right associativity) : py_scope.
Notation "m ;;; k" := (Exc.bind m (fun _ => k))
  (at level 61, right associativity) : py_scope.
Notation "x <~ r ;; k" := (Exc.rbind r (fun x => k))
  (at level 61, r at next level, right associativity) : py_scope.

(** ** Calendar dates: the parts of [datetime] the program uses *)

Module Datetime.
Import Exc.
Local Open Scope Z_scope.
Local Open Scope py_scope.

(** A naive [datetime] object. *)
Record datetime : Type := mkDatetime {
  year : Z; month : Z; day : Z;
  hour : Z; minute : Z; second : Z; microsecond : Z
}.

Definition MINYEAR : Z := 1.
Definition MAXYEAR : Z := 9999.

Definition is_leap (y : Z) : bool :=
  (y mod 4 =? 0) && (negb (y mod 100 =? 0) || (y mod 400 =? 0)).

Definition days_in_month (y m : Z) : Z :=
  if m =? 2 then (if is_leap y then 29 else 28)
  else if (m =? 4) || (m =? 6) || (m =? 9) || (m =? 11) then 30
  else 31.

(** The checks of the [date] constructor, in its order. *)
Definition check_date_fields (y m d : Z) : result unit :=
  if negb ((MINYEAR <=? y) && (y <=? MAXYEAR))
  then Raise (ValueError "year is out of range")
  else if negb ((1 <=? m) && (m <=? 12))
  then Raise (ValueError "month must be in 1..12")
  else if negb ((1 <=? d) && (d <=? days_in_month y m))
  then Raise (ValueError "day is out of range for month")
  else Ok tt.

(** [datetime(y, m, d)]: midnight of a checked date. *)
Definition midnight (y m d : Z) : result datetime :=
  _ <~ check_date_fields y m d ;;
  Ok (mkDatetime y m d 0 0 0 0).

(** [dt.replace(year=y)]: the new date is checked again, so 29 February
    cannot be moved to a common year. *)
Definition replace_year (dt : datetime) (y : Z) : result datetime :=
  _ <~ check_date_fields y (month dt) (day dt) ;;
  Ok (mkDatetime y (month dt) (day dt)
        (hour dt) (minute dt) (second dt) (microsecond dt)).

(** Comparison of naive datetimes: lexicographic on the seven fields. *)
Definition fields (dt : datetime) : list Z :=
  [year dt; month dt; day dt; hour dt; minute dt; second dt; microsecond dt].

Fixpoint lex_compare (a b : list Z) : comparison :=
  match a, b with
  | [], [] => Eq
  | [], _ :: _ => Lt
  | _ :: _, [] => Gt
  | x :: a', y :: b' =>
      match x ?= y with
      | Eq => lex_compare a' b'
      | c => c
      end
  end.

Definition dt_compare (a b : datetime) : comparison :=
  lex_compare (fields a) (fields b).

Definition dt_ltb (a b : datetime) : bool :=
  match dt_compare a b with Lt => true | _ => false end.

Definition dt_leb (a b : datetime) : bool :=
  match dt_compare a b with Gt => false | _ => true end.

(** The day after; the calendar ends on 31 December 9999. *)
Definition next_day (dt : datetime) : result datetime :=
  let with_date y m d :=
    mkDatetime y m d (hour dt) (minute dt) (second dt) (microsecond dt) in
  if day dt <? days_in_month (year dt) (month dt)
  then Ok (with_date (year dt) (month dt) (day dt + 1))
  else if month dt <? 12
  then Ok (with_date (year dt) (month dt + 1) 1)
  else if year dt <? MAXYEAR
  then Ok (with_date (year dt + 1) 1 1)
  else Raise (OverflowError "date value out of range").

(** [dt + timedelta(days=n)]: the time of day is kept. *)
Fixpoint add_days (dt : datetime) (n : nat) : result datetime :=
  match n with
  | O => Ok dt
  | S n' => dt' <~ next_day dt ;; add_days dt' n'
  end.

(** The proleptic Gregorian ordinal of a date (1 January of year 1 is day 1),
    in which the library does its day arithmetic. *)
Definition days_before_year (y : Z) : Z :=
  let p := y - 1 in p * 365 + p / 4 - p / 100 + p / 400.

Fixpoint days_before_month_aux (y : Z) (m : nat) : Z :=
  match m with
  | O => 0
  | S m' => days_before_month_aux y m' + days_in_month y (Z.of_nat m)
  end.

Definition days_before_month (y m : Z) : Z :=
  days_before_month_aux y (Z.to_nat (m - 1)).

Definition toordinal (dt : datetime) : Z :=
  days_before_year (year dt) + days_before_month (year dt) (month dt) + day dt.

End Datetime.

(** ** [datetime.strptime(value, "%d.%m.%Y")] *)

Module Strptime.
Import Exc Datetime.
Local Open Scope py_scope.

(** The fragment of regular expressions the format compiles to. *)
Inductive regex : Type :=
| Chr (c : ascii)
| Cls (lo hi : ascii)
| Digit
| Cat (r1 r2 : regex)
| Alt (r1 r2 : regex).

Definition in_class (lo hi c : ascii) : bool :=
  PyStr.between (PyStr.code lo) (PyStr.code hi) (PyStr.code c).

(** [\d] matches the decimal digits; below 256 these are 0-9. *)
Definition is_decimal (c : ascii) : bool := in_class "0" "9" c.

Definition match_char (p : ascii -> bool) (s : string) : list (string * string) :=
  match s with
  | String c s' => if p c then [(String c EmptyString, s')] else []
  | EmptyString => []
  end.

(** Backtracking matcher: every way [r] matches a prefix of [s], as
    (matched text, rest), in the order in which the engine tries them. *)
Fixpoint rmatch (r : regex) (s : string) : list (string * string) :=
  match r with
  | Chr c => match_char (Ascii.eqb c) s
  | Cls lo hi => match_char (in_class lo hi) s
  | Digit => match_char is_decimal s
  | Cat r1 r2 =>
      flat_map (fun '(t1, s1) =>
                  map (fun '(t2, s2) => (t1 ++ t2, s2)) (rmatch r2 s1))
               (rmatch r1 s)
  | Alt r1 r2 => (rmatch r1 s ++ rmatch r2 s)%list
  end.

(** [%d] is [3[0-1]|[1-2]\d|0[1-9]|[1-9]| [1-9]]. *)
Definition re_d : regex :=
  Alt (Cat (Chr "3") (Cls "0" "1"))
 (Alt (Cat (Cls "1" "2") Digit)
 (Alt (Cat (Chr "0") (Cls "1" "9"))
 (Alt (Cls "1" "9")
      (Cat (Chr " ") (Cls "1" "9"))))).

(** [%m] is [1[0-2]|0[1-9]|[1-9]]. *)
Definition re_m : regex :=
  Alt (Cat (Chr "1") (Cls "0" "2"))
 (Alt (Cat (Chr "0") (Cls "1" "9"))
      (Cls "1" "9")).

(** [%Y] is [\d\d\d\d]. *)
Definition re_Y : regex := Cat Digit (Cat Digit (Cat Digit Digit)).

(** The matches of [(?P<d>..)\.(?P<m>..)\.(?P<Y>..)] at the start of [s]:
    the three groups and the unconsumed rest. *)
Definition match_dmY (s : string) : list (string * string * string * string) :=
  flat_map (fun '(d, s1) =>
  flat_map (fun '(_, s2) =>
  flat_map (fun '(m, s3) =>
  flat_map (fun '(_, s4) =>
  map (fun '(Y, s5) => (d, m, Y, s5)) (rmatch re_Y s4))
    (rmatch (Chr ".") s3))
    (rmatch re_m s2))
    (rmatch (Chr ".") s1))
    (rmatch re_d s).

Definition digit_value (c : ascii) : Z := Z.of_N (PyStr.code c) - 48.

Fixpoint int_digits (acc : Z) (s : string) : Z :=
  match s with
  | EmptyString => acc
  | String c s' => int_digits (10 * acc + digit_value c) s'
  end.

(** [int(s)] on the text of a group: blanks around the number are dropped
    and the decimal digits read. *)
Definition py_int (s : string) : result Z :=
  let t := PyStr.strip s in
  match t with
  | EmptyString => Raise (ValueError "invalid literal for int()")
  | _ =>
      if forallb is_decimal (list_ascii_of_string t)
      then Ok (int_digits 0 t)
      else Raise (ValueError "invalid literal for int()")
  end.

(** The first match decides; text left over after it is an error; the
    date found is then built, which checks it against the calendar. *)
Definition strptime (data : string) : result datetime :=
  match match_dmY data with
  | [] => Raise (ValueError "time data does not match format")
  | (d, m, Y, rest) :: _ =>
      match rest with
      | EmptyString =>
          y <~ py_int Y ;;
          mo <~ py_int m ;;
          dd <~ py_int d ;;
          midnight y mo dd
      | _ => Raise (ValueError "unconverted data remains")
      end
  end.

End Strptime.

(** ** Fields: [Field], [Name], [Phone], [Birthday] *)

Module Fields.
Import Exc.

(** An object of class [Field] or of one of its subclasses. *)
Record Field : Type := mkField { value : string }.

(** [Field.__str__] *)
Definition Field_str (f : Field) : string := value f.

(** [Name.__init__]: the empty string is the only falsy string. *)
Definition Name (v : string) : result Field :=
  match v with
  | EmptyString => Raise (ValueError "Name cannot be empty")
  | _ => Ok (mkField v)
  end.

(** [Phone.__init__]; [PhoneValidationError] derives from [Exception],
    not from [ValueError]. *)
Definition Phone (v : string) : result Field :=
  if negb (PyStr.isdigit v) || negb (Nat.eqb (String.length v) 10)
  then Raise (PhoneValidationError "Phone number must be a 10-digit number")
  else Ok (mkField v).

(** [Birthday.__init__]: a [ValueError] of the parser is replaced by one
    with the message of the class. *)
Definition Birthday (v : string) : result Field :=
  match Strptime.strptime v with
  | Ok _ => Ok (mkField v)
  | Raise (ValueError _) =>
      Raise (ValueError
        "Invalid date format for birthday. Birthday should be in the format DD.MM.YYYY")
  | Raise e => Raise e
  end.

End Fields.

(** ** Class [Record] *)

Module Rec.
Import Exc Fields.
Local Open Scope py_scope.

(** An object of class [Record]. *)
Record ContactRecord : Type := mkRecord {
  name : Field;
  phones : list Field;
  birthday : option Field
}.

Definition set_phones (l : list Field) (r : ContactRecord) : ContactRecord :=
  mkRecord (name r) l (birthday r).

Definition set_birthday (b : option Field) (r : ContactRecord) : ContactRecord :=
  mkRecord (name r) (phones r) b.

(** [Record.__init__] *)
Definition init (n : string) : result ContactRecord :=
  f <~ Name n ;; Ok (mkRecord f [] None).

(** [Record.add_phone]: answers [None] after appending, and the text of the
    exception when the [except ValueError] clause catches one. *)
Definition add_phone (phone : string) : M ContactRecord (option string) :=
  try_except
    (phone_obj <- lift (Phone phone) ;;
     modify (fun r => set_phones (phones r ++ [phone_obj]) r) ;;;
     ret None)
    (fun e => match e with
              | ValueError msg => Some (ret (Some msg))
              | _ => None
              end).

(** The loop of [remove_phone]: the first entry whose value is [phone] is
    taken out of the list (entries are distinct objects, so [list.remove]
    takes out that very entry). *)
Fixpoint remove_first (phone : string) (l : list Field) : list Field :=
  match l with
  | [] => []
  | phone_obj :: l' =>
      if String.eqb (value phone_obj) phone then l'
      else phone_obj :: remove_first phone l'
  end.

Definition remove_phone (phone : string) (r : ContactRecord) : ContactRecord :=
  set_phones (remove_first phone (phones r)) r.

(** The loop of [edit_phone]: the value of the first entry equal to
    [old_phone] is overwritten with [new_phone]. *)
Fixpoint edit_first (old_phone new_phone : string) (l : list Field) : list Field :=
  match l with
  | [] => []
  | phone_obj :: l' =>
      if String.eqb (value phone_obj) old_phone then mkField new_phone :: l'
      else phone_obj :: edit_first old_phone new_phone l'
  end.

Definition edit_phone (old_phone new_phone : string) (r : ContactRecord)
  : ContactRecord :=
  set_phones (edit_first old_phone new_phone (phones r)) r.

(** [Record.add_birthday] *)
Definition add_birthday (b : string) : M ContactRecord string :=
  try_except
    (birthday_obj <- lift (Birthday b) ;;
     modify (set_birthday (Some birthday_obj)) ;;;
     ret "Birthday added.")
    (fun e => match e with
              | ValueError msg => Some (ret msg)
              | _ => None
              end).

(** [Record.find_phone] *)
Definition find_phone (phone : string) (r : ContactRecord) : option Field :=
  List.find (fun phone_obj => String.eqb (value phone_obj) phone) (phones r).

(** [Record.__str__] *)
Definition to_str (r : ContactRecord) : string :=
  let phone_str := PyStr.join "; " (map Field_str (phones r)) in
  let birthday_str :=
    match birthday r with
    | Some b => Field_str b
    | None => "N/A"
    end in
  "Contact name: " ++ value (name r) ++ ", phones: " ++ phone_str
    ++ ", birthday: " ++ birthday_str.

End Rec.

(** ** Class [AddressBook] *)

Module Book.
Import Exc Fields Rec Datetime.
Local Open Scope py_scope.

(** The dictionary [self.data]: keys in insertion order, each key once. *)
Definition AddressBook : Type := list (string * ContactRecord).

Fixpoint dict_get (k : string) (d : AddressBook) : option ContactRecord :=
  match d with
  | [] => None
  | (k', v) :: d' => if String.eqb k' k then Some v else dict_get k d'
  end.

Definition dict_mem (k : string) (d : AddressBook) : bool :=
  match dict_get k d with Some _ => true | None => false end.

(** [d[k] = v]: an existing key keeps its place, a new key goes last. *)
Fixpoint dict_set (k : string) (v : ContactRecord) (d : AddressBook) : AddressBook :=
  match d with
  | [] => [(k, v)]
  | (k', v') :: d' =>
      if String.eqb k' k then (k', v) :: d'
      else (k', v') :: dict_set k v d'
  end.

(** [del d[k]] for a key that is present (and no change otherwise). *)
Fixpoint dict_del (k : string) (d : AddressBook) : AddressBook :=
  match d with
  | [] => []
  | (k', v') :: d' =>
      if String.eqb k' k then d' else (k', v') :: dict_del k d'
  end.

(** [AddressBook.add_record] *)
Definition add_record (record : ContactRecord) (book : AddressBook) : AddressBook :=
  dict_set (PyStr.lower (value (name record))) record book.

(** [AddressBook.find] *)
Definition find (n : string) (book : AddressBook) : option ContactRecord :=
  dict_get (PyStr.lower n) book.

(** [AddressBook.delete] *)
Definition delete (n : string) (book : AddressBook) : AddressBook :=
  if dict_mem (PyStr.lower n) book then dict_del (PyStr.lower n) book else book.

(** The loop of [get_birthdays_per_week] over [self.data.values()]. *)
Fixpoint upcoming_loop (today next_week : datetime)
    (records : list ContactRecord) (upcoming_birthdays : list (string * string))
  : result (list (string * string)) :=
  match records with
  | [] => Ok upcoming_birthdays
  | record :: rest =>
      match birthday record with
      | Some b =>
          parsed <~ Strptime.strptime (value b) ;;
          birthday_date <~ replace_year parsed (year today) ;;
          if dt_ltb today birthday_date && dt_leb birthday_date next_week
          then upcoming_loop today next_week rest
                 (upcoming_birthdays ++ [(value (name record), value b)])
          else upcoming_loop today next_week rest upcoming_birthdays
      | None => upcoming_loop today next_week rest upcoming_birthdays
      end
  end.

(** [AddressBook.get_birthdays_per_week], with [datetime.now()] as [today]. *)
Definition get_birthdays_per_week (today : datetime) (book : AddressBook)
  : result (list (string * string)) :=
  next_week <~ add_days today 7 ;;
  upcoming_loop today next_week (map snd book) [].

(** [contacts[key]] hands out the record itself: what a method does to the
    record is seen in the book, also when the method ends with an
    exception. *)
Definition with_record {A} (key : string) (m : M ContactRecord A)
  : M AddressBook A :=
  fun book =>
    match dict_get key book with
    | None => (Raise (KeyError key), book)
    | Some record =>
        let (res, record') := m record in (res, dict_set key record' book)
    end.

(** A method run on a record that is not yet in any book. *)
Definition on_local {S A} (m : M ContactRecord A) (record : ContactRecord)
  : M S (A * ContactRecord) :=
  fun s =>
    match m record with
    | (Ok a, record') => (Ok (a, record'), s)
    | (Raise e, _) => (Raise e, s)
    end.

End Book.

(** ** The command handlers *)

Module Handlers.
Import Exc Fields Rec Book.
Import PyStr.
Local Open Scope py_scope.

(** The decorator [input_error]. *)
Definition input_error {S} (func : M S text) : M S text :=
  try_except func
    (fun e => match e with
              | ValueError _ => Some (ret (T "Give me name and phone please."))
              | KeyError _ => Some (ret (T "Enter user name."))
              | IndexError _ => Some (ret (T "Give me name and phone please."))
              | PhoneValidationError _ =>
                  Some (ret (T "Phone number must be a 10-digit number"))
              | BirthdayError _ => Some (ret (T "Invalid date format for birthday"))
              | _ => None
              end).

(** [a, b = args] *)
Definition unpack2 (args : list string) : result (string * string) :=
  match args with
  | [a; b] => Ok (a, b)
  | _ :: _ :: _ :: _ => Raise (ValueError "too many values to unpack (expected 2)")
  | _ => Raise (ValueError "not enough values to unpack (expected 2)")
  end.

(** [args[0]] *)
Definition first_arg (args : list string) : result string :=
  match args with
  | a :: _ => Ok a
  | [] => Raise (IndexError "list index out of range")
  end.

(** [if message:] on what [Record.add_phone] answered. *)
Definition truthy (message : option string) : bool :=
  match message with
  | None | Some EmptyString => false
  | Some _ => true
  end.

Definition phone_list (record : ContactRecord) : string :=
  join "; " (map Field_str (phones record)).

Definition add_contact (args : list string) : M AddressBook text :=
  input_error
    (if Nat.ltb (List.length args) 2 then ret (T "Give me name and phone please.")
     else
       p <- lift (unpack2 args) ;;
       let (name, phone) := (p : string * string) in
       contacts <- get ;;
       if negb (dict_mem name contacts) then
         record <- lift (init (lower name)) ;;
         r <- on_local (add_phone phone) record ;;
         modify (add_record (snd r)) ;;;
         ret (T "Contact added.")
       else ret (T "Contact already exists. Use 'change' to update.")).

Definition change_contact (args : list string) : M AddressBook text :=
  input_error
    (if Nat.ltb (List.length args) 2 then ret (T "Give me name and phone please.")
     else
       p <- lift (unpack2 args) ;;
       let phone := snd p in
       a0 <- lift (first_arg args) ;;
       let name := lower a0 in
       contacts <- get ;;
       if dict_mem name contacts then
         with_record (lower name)
           (record <- get ;;
            match phones record with
            | first :: _ => modify (Rec.remove_phone (value first))
            | [] => ret tt
            end ;;;
            message <- add_phone phone ;;
            if truthy message
            then ret (T (match message with Some m => m | None => EmptyString end))
            else ret (T "Contact updated."))
       else ret (T "Contact not found.")).

Definition show_phone (args : list string) : M AddressBook text :=
  input_error
    (if Nat.ltb (List.length args) 1 then ret (T "Give me name and phone please.")
     else
       a0 <- lift (first_arg args) ;;
       let name := lower a0 in
       contacts <- get ;;
       if dict_mem name contacts then
         with_record (lower name) (record <- get ;; ret (T (phone_list record)))
       else ret (T "Contact not found.")).

Definition newline : text := [10%N].

Definition show_all (args : list string) : M AddressBook text :=
  input_error
    (contacts <- get ;;
     match contacts with
     | [] => ret (T "No contacts found.")
     | _ =>
         ret (join_text newline
                (map (fun '(name, record) =>
                        (capitalize name ++ T ": " ++ T (phone_list record))%list)
                     contacts))
     end).

(** The handler of the [remove] command. *)
Definition remove_phone (args : list string) : M AddressBook text :=
  input_error
    (if Nat.ltb (List.length args) 1
     then ret (T "Give me the name of the contact you want to remove.")
     else
       a0 <- lift (first_arg args) ;;
       let name := lower a0 in
       contacts <- get ;;
       if dict_mem name contacts then
         modify (dict_del name) ;;;
         ret (T "Contact removed.")
       else ret (T "Contact not found.")).

Definition add_birthday (args : list string) : M AddressBook text :=
  input_error
    (if Nat.ltb (List.length args) 2
     then ret (T "Give me name and date of birth in the format DD.MM.YYYY.")
     else
       p <- lift (unpack2 args) ;;
       let birthday := snd p in
       a0 <- lift (first_arg args) ;;
       let name := lower a0 in
       contacts <- get ;;
       if dict_mem name contacts then
         with_record (lower name)
           (result <- Rec.add_birthday birthday ;; ret (T result))
       else ret (T "Contact not found.")).

Definition show_birthday (args : list string) : M AddressBook text :=
  input_error
    (if Nat.ltb (List.length args) 1
     then ret (T "Give me name and date of birth in the format DD.MM.YYYY.")
     else
       a0 <- lift (first_arg args) ;;
       let name := lower a0 in
       contacts <- get ;;
       if dict_mem name contacts then
         with_record (lower name)
           (record <- get ;;
            match birthday record with
            | Some b => ret (T (value b))
            | None => ret (T "Birthday not set.")
            end)
       else ret (T "Contact not found.")).

End Handlers.

(** ** [parse_input] and one turn of the loop of [main] *)

Module Main.
Import Exc Fields Rec Book Handlers.
Import PyStr.
Local Open Scope py_scope.

(** [cmd, *args = user_input.split()]: unpacking needs at least one word. *)
Definition parse_input (user_input : string) : result (string * list string) :=
  match split user_input with
  | [] =>
      Raise (ValueError "not enough values to unpack (expected at least 1, got 0)")
  | cmd :: args => Ok (lower (strip cmd), args)
  end.

(** What one turn of the loop does when no exception escapes: the texts it
    printed, one per call of [print], and whether the loop goes on; on
    [close] and [exit] the book handed to [save_address_book]. *)
Inductive turn : Type :=
| Continue (printed : list text)
| Break (printed : list text) (saved : AddressBook).

Definition printed_of (t : turn) : list text :=
  match t with
  | Continue p => p
  | Break p _ => p
  end.

Definition print_result (h : M AddressBook text) : M AddressBook turn :=
  result <- h ;; ret (Continue [result]).

Definition birthday_line (entry : string * string) : text :=
  (capitalize (fst entry) ++ T " - " ++ T (snd entry))%list.

(** The body of [while True:] for the line [user_input], read at [now].
    Nothing in [main] catches what [parse_input] or
    [get_birthdays_per_week] raise. *)
Definition main_turn (now : Datetime.datetime) (user_input : string)
  : M AddressBook turn :=
  parsed <- lift (parse_input user_input) ;;
  let (command, args) := (parsed : string * list string) in
  if String.eqb command "close" || String.eqb command "exit" then
    contacts <- get ;; ret (Break [T "Good bye!"] contacts)
  else if String.eqb command "hello" then ret (Continue [T "How can I help you?"])
  else if String.eqb command "add" then print_result (add_contact args)
  else if String.eqb command "change" then print_result (change_contact args)
  else if String.eqb command "phone" then print_result (show_phone args)
  else if String.eqb command "all" then print_result (show_all args)
  else if String.eqb command "remove" then print_result (remove_phone args)
  else if String.eqb command "add-birthday" then print_result (add_birthday args)
  else if String.eqb command "show-birthday" then print_result (show_birthday args)
  else if String.eqb command "birthdays" then
    contacts <- get ;;
    upcoming_birthdays <- lift (get_birthdays_per_week now contacts) ;;
    match upcoming_birthdays with
    | [] => ret (Continue [T "No upcoming birthdays in the next week."])
    | _ =>
        ret (Continue (T "Upcoming birthdays in the next week:"
                         :: map birthday_line upcoming_birthdays))
    end
  else ret (Continue [T "Invalid command."]).

(** How a run of the loop over the lines typed so far stands: waiting for
    the next line, stopped by [close] or [exit] with the book it saved, or
    ended by an exception nothing caught. *)
Inductive run_end : Type :=
| Waiting
| Stopped (saved : AddressBook)
| Crashed (e : exn).

(** The loop of [main] on the lines [inputs], each with the time at which
    it is read: the texts printed, how the run stands, and the book. *)
Fixpoint main_loop (inputs : list (Datetime.datetime * string))
    (contacts : AddressBook)
  : list text * run_end * AddressBook :=
  match inputs with
  | [] => ([], Waiting, contacts)
  | (now, user_input) :: rest =>
      match main_turn now user_input contacts with
      | (Ok (Continue printed), contacts') =>
          let '(out, e, final) := main_loop rest contacts' in
          ((printed ++ out)%list, e, final)
      | (Ok (Break printed saved), contacts') =>
          (printed, Stopped saved, contacts')
      | (Raise e, contacts') => ([], Crashed e, contacts')
      end
  end.

End Main.

(** ** Notions the properties are stated with *)

Module Spec.
Import Exc Fields Rec Book Datetime.
Import PyStr.

(** One of the characters 0-9. *)
Definition decimal_digit (c : ascii) : Prop := (48 <= code c <= 57)%N.

(** A character [str.isdigit] takes for a digit: 0-9 or one of the
    superscripts U+00B2, U+00B3, U+00B9. *)
Definition digit_character (c : ascii) : Prop :=
  decimal_digit c \/ code c = 178%N \/ code c = 179%N \/ code c = 185%N.

Definition ten_of (P : ascii -> Prop) (s : string) : Prop :=
  String.length s = 10 /\ forall c, In c (list_ascii_of_string s) -> P c.

(** A string of exactly 10 decimal digits. *)
Definition ten_decimal_digits : string -> Prop := ten_of decimal_digit.

(** A string of exactly 10 characters that [str.isdigit] accepts. *)
Definition ten_digit_characters : string -> Prop := ten_of digit_character.

(** Ten times the superscript two, U+00B2. *)
Definition superscript_twos : string :=
  let c := ascii_of_N 178 in
  String c (String c (String c (String c (String c
 (String c (String c (String c (String c (String c EmptyString))))))))).

(** [m] is [n] up to the case of its letters. *)
Definition case_variant (m n : string) : Prop := lower m = lower n.

(** The keys of a book. *)
Definition keys (book : AddressBook) : list string := map fst book.

(** The decimal digit of value [n], for [n] from 0 to 9. *)
Definition digit_char (n : Z) : ascii := ascii_of_N (Z.to_N (48 + n)).

(** A number below 100 written with two digits, and one below 10000
    written with four. *)
Definition fmt2 (n : Z) : string :=
  String (digit_char (n / 10)) (String (digit_char (n mod 10)) EmptyString).

Definition fmt4 (n : Z) : string :=
  String (digit_char (n / 1000))
 (String (digit_char (n / 100 mod 10))
 (String (digit_char (n / 10 mod 10))
 (String (digit_char (n mod 10)) EmptyString))).

(** A number below 100 written without leading zero. *)
Definition fmt_short (n : Z) : string :=
  if (n <? 10)%Z then String (digit_char n) EmptyString else fmt2 n.

(** Day, month and year joined by dots, from the texts of the three. *)
Definition dotted (ds ms ys : string) : string := ds ++ "." ++ ms ++ "." ++ ys.

(** A date written as two-digit day, two-digit month, four-digit year. *)
Definition render_date (d m y : Z) : string := dotted (fmt2 d) (fmt2 m) (fmt4 y).

(** A date of the calendar, from 1 January of year 1 to 31 December 9999. *)
Definition valid_date (y m d : Z) : Prop :=
  (1 <= y <= 9999 /\ 1 <= m <= 12 /\ 1 <= d <= days_in_month y m)%Z.

(** The birthday of a record moved to the year of [today]: defined when
    the record has a birthday and the calendar has that day in that year. *)
Definition projected_birthday (today : datetime) (record : ContactRecord)
  : option datetime :=
  match birthday record with
  | Some b =>
      match Strptime.strptime (value b) with
      | Ok parsed =>
          match replace_year parsed (year today) with
          | Ok d => Some d
          | Raise _ => None
          end
      | Raise _ => None
      end
  | None => None
  end.

(** The window test: strictly after [today], on or before [next_week]. *)
Definition in_week (today next_week : datetime) (record : ContactRecord) : bool :=
  match projected_birthday today record with
  | Some d => dt_ltb today d && dt_leb d next_week
  | None => false
  end.

(** The pair reported for a record: its name and its birthday as stored. *)
Definition name_and_birthday (record : ContactRecord) : string * string :=
  (value (name record),
   match birthday record with
   | Some b => value b
   | None => EmptyString
   end).

(** The records of the book that pass the window test, in the order of the
    book. *)
Definition upcoming (today next_week : datetime) (book : AddressBook)
  : list (string * string) :=
  map name_and_birthday (filter (in_week today next_week) (map snd book)).

(** Every birthday in the book exists in the year of [today]. *)
Definition projectable (today : datetime) (book : AddressBook) : Prop :=
  Forall (fun record =>
            birthday record <> None -> projected_birthday today record <> None)
         (map snd book).

(** A result other than [OverflowError], the one exception of the model
    that no clause of [input_error] catches. *)
Definition no_overflow {A} (r : result A) : Prop :=
  match r with
  | Raise (OverflowError _) => False
  | _ => True
  end.

(** A computation that never ends with [OverflowError]. *)
Definition safe {S A} (m : M S A) : Prop := forall s, no_overflow (fst (m s)).

(** A string that lower-casing leaves as it is. *)
Definition lower_case (s : string) : Prop := lower s = s.

(** The add handler called once for each argument list of [cmds], in turn. *)
Fixpoint run_adds (cmds : list (list string)) (book : AddressBook) : AddressBook :=
  match cmds with
  | [] => book
  | args :: rest => run_adds rest (snd (Handlers.add_contact args book))
  end.

(** An entry whose key is the stored name of its record, with no string
    in it that has an upper-case letter, and whose name is the lower-cased
    first argument of one of the commands [cmds]. *)
Definition entry_lowered (cmds : list (list string))
    (entry : string * ContactRecord) : Prop :=
  let (k, r) := entry in
  k = value (name r) /\
  lower_case (value (name r)) /\
  Forall (fun p => lower_case (value p)) (phones r) /\
  birthday r = None /\
  exists n phone, In [n; phone] cmds /\ value (name r) = lower n.

(** A result that is a value or a [ValueError]. *)
Definition value_error_only {A} (r : result A) : Prop :=
  match r with
  | Ok _ | Raise (ValueError _) => True
  | Raise _ => False
  end.

(** A string without whitespace, a word (non-empty, without whitespace)
    and a string of whitespace only. *)
Definition no_space (s : string) : Prop :=
  forall c, In c (list_ascii_of_string s) -> isspace_char c = false.

Definition word (s : string) : Prop := s <> EmptyString /\ no_space s.

Definition blank (s : string) : Prop :=
  forall c, In c (list_ascii_of_string s) -> isspace_char c = true.

(** The first words [main] knows. *)
Definition known_commands : list string :=
  ["close"; "exit"; "hello"; "add"; "change"; "phone"; "all"; "remove";
   "add-birthday"; "show-birthday"; "birthdays"].

(** A book with each key once and every record under its lower-cased
    name. *)
Definition filed_by_name (book : AddressBook) : Prop :=
  NoDup (keys book) /\
  Forall (fun entry => fst entry = lower (value (name (snd entry)))) book.

(** A method that leaves the name of the record alone, and a computation
    that keeps the book filed by name. *)
Definition keeps_name {A} (m : M ContactRecord A) : Prop :=
  forall r, name (snd (m r)) = name r.

Definition keeps_filing {A} (m : M AddressBook A) : Prop :=
  forall book, filed_by_name book -> filed_by_name (snd (m book)).

(** The date of [a] is before the date of [b]; the two have the same date;
    the time of day of [a] has no negative field. *)
Definition date_lt (a b : datetime) : Prop :=
  (year a < year b \/
   (year a = year b /\
    (month a < month b \/ (month a = month b /\ day a < day b))))%Z.

Definition same_date (a b : datetime) : Prop :=
  year a = year b /\ month a = month b /\ day a = day b.

Definition time_from_midnight (a : datetime) : Prop :=
  (0 <= hour a /\ 0 <= minute a /\ 0 <= second a /\ 0 <= microsecond a)%Z.

(** The record has no birthday, or its birthday, moved to the current
    year, has today's month and day or earlier ones. *)
Definition passed_this_year (today : datetime) (record : ContactRecord) : Prop :=
  match birthday record with
  | None => True
  | Some _ =>
      exists d,
        projected_birthday today record = Some d /\
        (month d < month today \/
         (month d = month today /\ day d <= day today))%Z
  end.

(** The text of a day of the month as [strptime] reads it: two digits, one
    digit without the zero, or a space and one digit. *)
Definition day_text (ds : string) (d : Z) : Prop :=
  (1 <= d <= 31)%Z /\
  (ds = fmt2 d \/ ds = fmt_short d \/
   ((d <= 9)%Z /\ ds = String " " (fmt_short d))).

(** The text of a month: two digits, or one digit without the zero. *)
Definition month_text (ms : string) (m : Z) : Prop :=
  (1 <= m <= 12)%Z /\ (ms = fmt2 m \/ ms = fmt_short m).

(** Day, month and four-digit year parted by dots, the three numbers a date
    of the calendar. *)
Definition birthday_text (s : string) : Prop :=
  exists ds ms d m y,
    s = dotted ds ms (fmt4 y) /\ day_text ds d /\ month_text ms m /\
    valid_date y m d.

(** The line is laid out as the words [ws] parted by whitespace: whitespace,
    the first word, and then either nothing, or one whitespace character
    and the rest of the line laid out as the other words.  No words: the
    line is blank. *)
Fixpoint spaced (ws : list string) (line : string) : Prop :=
  match ws with
  | [] => blank line
  | w :: ws' =>
      exists pre rest,
        blank pre /\ word w /\ line = (pre ++ w ++ rest)%string /\
        ((rest = EmptyString /\ ws' = []) \/
         exists c rest',
           rest = String c rest' /\ isspace_char c = true /\ spaced ws' rest')
  end.

(** The birthday of the record, moved to the current year, has today's
    month and day or earlier ones. *)
Definition has_passed (today : datetime) (record : ContactRecord) : bool :=
  match projected_birthday today record with
  | Some d =>
      ((month d <? month today) ||
       ((month d =? month today) && (day d <=? day today)))%Z
  | None => false
  end.

End Spec.

(* ================================================================== *)
(** * Theorems *)
(* ================================================================== *)

Import Exc Fields Rec Book Spec.
Import PyStr.
Local Open Scope list_scope.

(** ** Strings *)

Lemma isdigit_char_spec (c : ascii) :
  isdigit_char c = true <-> digit_character c.
Proof.
  unfold isdigit_char, digit_character, decimal_digit, between.
  rewrite !orb_true_iff, andb_true_iff, !N.leb_le, !N.eqb_eq.
  tauto.
Qed.

Lemma decimal_is_digit_character (c : ascii) :
  decimal_digit c -> digit_character c.
Proof. intro H; left; exact H. Qed.

Lemma isdigit_spec (s : string) :
  isdigit s = true <->
  s <> EmptyString /\ forall c, In c (list_ascii_of_string s) -> digit_character c.
Proof.
  destruct s as [|a s].
  - simpl. split; [discriminate | intros [H _]; now elim H].
  - unfold isdigit. rewrite forallb_forall. split.
    + intro H. split; [discriminate|].
      intros c Hc. apply isdigit_char_spec, H, Hc.
    + intros [_ H] c Hc. apply isdigit_char_spec, H, Hc.
Qed.

Lemma length_10_nonempty (s : string) : String.length s = 10 -> s <> EmptyString.
Proof. intros H E; subst s; discriminate H. Qed.

(** ** [Phone] *)

Lemma Phone_ok_iff (s : string) :
  Phone s = Ok (mkField s) <-> ten_digit_characters s.
Proof.
  unfold Phone, ten_digit_characters, ten_of.
  destruct (isdigit s) eqn:D; destruct (Nat.eqb (String.length s) 10) eqn:L; simpl.
  - apply Nat.eqb_eq in L. apply isdigit_spec in D. intuition.
  - apply Nat.eqb_neq in L. split; [discriminate | intros [H _]; contradiction].
  - split; [discriminate|]. intros [H1 H2].
    assert (isdigit s = true) as E
      by (apply isdigit_spec; split; [now apply length_10_nonempty | exact H2]).
    congruence.
  - apply Nat.eqb_neq in L. split; [discriminate | intros [H _]; contradiction].
Qed.

Lemma Phone_total (s : string) :
  Phone s = Ok (mkField s) \/
  Phone s = Raise (PhoneValidationError "Phone number must be a 10-digit number").
Proof.
  unfold Phone.
  destruct (negb (isdigit s) || negb (Nat.eqb (String.length s) 10)); auto.
Qed.

Lemma Phone_raises (s : string) (e : exn) :
  Phone s = Raise e ->
  e = PhoneValidationError "Phone number must be a 10-digit number".
Proof. destruct (Phone_total s) as [H|H]; rewrite H; congruence. Qed.

(** C4 (as amended).  Among the strings whose characters are code points
    below 256, which are the strings of this development, [Phone] accepts
    exactly those of 10 characters each of which is one of the thirteen
    that [str.isdigit] takes for a digit there: the decimal digits 0-9 and
    the superscripts U+00B2, U+00B3, U+00B9.  Every string of exactly 10
    decimal digits is accepted and the rendering of the stored field is the
    input; so is every string of 10 of the thirteen characters; every other
    string of code points below 256 fails with [PhoneValidationError].
    Strings with a code point from 256 on are outside the statement. *)
Theorem Phone_accepts_ten_digit_characters (s : string) :
  (ten_decimal_digits s ->
     exists f, Phone s = Ok f /\ Field_str f = s) /\
  (ten_digit_characters s ->
     exists f, Phone s = Ok f /\ Field_str f = s) /\
  (~ ten_digit_characters s ->
     Phone s = Raise (PhoneValidationError "Phone number must be a 10-digit number")).
Proof.
  assert (forall t, ten_digit_characters t ->
                    exists f, Phone t = Ok f /\ Field_str f = t) as Hok.
  { intros t Ht. exists (mkField t). split; [now apply Phone_ok_iff | reflexivity]. }
  split; [|split].
  - intros [Hl Hc]. apply Hok. split; [exact Hl|].
    intros c Hin. apply decimal_is_digit_character, Hc, Hin.
  - apply Hok.
  - intro Hn. destruct (Phone_total s) as [H|H]; [|exact H].
    apply Phone_ok_iff in H. contradiction.
Qed.

Ltac each_char :=
  let c := fresh "c" in
  let Hc := fresh "Hc" in
  intros c Hc; simpl in Hc;
  repeat (destruct Hc as [<-|Hc]; [cbv; intuition (discriminate || auto)|]);
  contradiction.

(** Witness for the statement on [Phone]: a string of ten decimal digits is
    accepted, a string of three letters is refused. *)
Lemma Phone_accepts_ten_digit_characters_witness :
  (exists f, Phone "1234567890" = Ok f /\ Field_str f = "1234567890") /\
  (exists f, Phone "0000000000" = Ok f /\ Field_str f = "0000000000") /\
  Phone "abc" = Raise (PhoneValidationError "Phone number must be a 10-digit number").
Proof.
  split; [|split].
  - apply (proj1 (Phone_accepts_ten_digit_characters "1234567890")).
    split; [reflexivity | each_char].
  - apply (proj1 (proj2 (Phone_accepts_ten_digit_characters "0000000000"))).
    split; [reflexivity | each_char].
  - apply (proj2 (proj2 (Phone_accepts_ten_digit_characters "abc"))).
    intros [H _]. discriminate H.
Defined.

(** C4 (counterexample).  Ten superscript twos are not ten decimal digits,
    and [Phone] accepts them. *)
Lemma Phone_accepts_superscripts :
  ~ ten_decimal_digits superscript_twos /\
  Phone superscript_twos = Ok (mkField superscript_twos).
Proof.
  split; [|reflexivity].
  intros [_ H]. specialize (H (ascii_of_N 178) (or_introl eq_refl)).
  unfold decimal_digit in H. cbn in H. lia.
Qed.

(** ** [Record] *)

Lemma add_phone_valid (phone : string) (r : ContactRecord) :
  Phone phone = Ok (mkField phone) ->
  add_phone phone r = (Ok None, set_phones (phones r ++ [mkField phone]) r).
Proof.
  intro H. unfold add_phone, try_except, bind, lift, modify, ret.
  rewrite H. reflexivity.
Qed.

Lemma add_phone_invalid (phone : string) (r : ContactRecord) (e : exn) :
  Phone phone = Raise e ->
  add_phone phone r =
    (Raise (PhoneValidationError "Phone number must be a 10-digit number"), r).
Proof.
  intro H. pose proof (Phone_raises _ _ H) as ->.
  unfold add_phone, try_except, bind, lift, modify, ret.
  rewrite H. reflexivity.
Qed.

(** C2 (what the code does).  [Record.add_phone] on a string that is not a
    phone number ends with the exception [PhoneValidationError], which its
    [except ValueError] clause does not catch; no message is returned. *)
Theorem add_phone_validation_error_escapes (r : ContactRecord) :
  add_phone "12345" r =
    (Raise (PhoneValidationError "Phone number must be a 10-digit number"), r).
Proof. reflexivity. Qed.

Lemma set_phones_same (r : ContactRecord) : set_phones (phones r) r = r.
Proof. destruct r; reflexivity. Qed.

Lemma edit_first_absent (old_phone new_phone : string) (l : list Field) :
  (forall q, In q l -> value q <> old_phone) ->
  edit_first old_phone new_phone l = l.
Proof.
  induction l as [|p l IH]; intro H; simpl; [reflexivity|].
  destruct (String.eqb (value p) old_phone) eqn:E.
  - apply String.eqb_eq in E. elim (H p (or_introl eq_refl) E).
  - f_equal. apply IH. intros q Hq. apply H. now right.
Qed.

Lemma edit_first_found (old_phone new_phone : string)
    (before after : list Field) (p : Field) :
  value p = old_phone ->
  (forall q, In q before -> value q <> old_phone) ->
  edit_first old_phone new_phone (before ++ p :: after) =
    before ++ mkField new_phone :: after.
Proof.
  intros Hp. induction before as [|b before IH]; intro H; simpl.
  - rewrite (proj2 (String.eqb_eq _ _) Hp). reflexivity.
  - destruct (String.eqb (value b) old_phone) eqn:E.
    + apply String.eqb_eq in E. elim (H b (or_introl eq_refl) E).
    + f_equal. apply IH. intros q Hq. apply H. now right.
Qed.

(** C8.  [edit_phone old new] overwrites the value of the first phone entry
    equal to [old] with [new], whatever string [new] is (it is not
    validated), and keeps the other entries, the name and the birthday; when
    no entry equals [old] the record is unchanged. *)
Theorem edit_phone_replaces_first_unvalidated
    (r : ContactRecord) (old_phone new_phone : string) :
  (forall before p after,
      phones r = before ++ p :: after ->
      value p = old_phone ->
      (forall q, In q before -> value q <> old_phone) ->
      edit_phone old_phone new_phone r =
        mkRecord (name r) (before ++ mkField new_phone :: after) (birthday r)) /\
  ((forall q, In q (phones r) -> value q <> old_phone) ->
      edit_phone old_phone new_phone r = r).
Proof.
  split.
  - intros before p after Hl Hp Hb. unfold edit_phone, set_phones.
    rewrite Hl, (edit_first_found _ _ _ _ _ Hp Hb). reflexivity.
  - intro H. unfold edit_phone. rewrite (edit_first_absent _ _ _ H).
    apply set_phones_same.
Qed.

(** Witness for [edit_phone]: the second of two entries is overwritten with
    a string [Phone] refuses, and an absent number changes nothing. *)
Lemma edit_phone_replaces_first_unvalidated_witness :
  let r := mkRecord (mkField "bob")
             [mkField "1234567890"; mkField "5555555555"] None in
  Phone "oops" = Raise (PhoneValidationError "Phone number must be a 10-digit number") /\
  edit_phone "5555555555" "oops" r =
    mkRecord (mkField "bob") [mkField "1234567890"; mkField "oops"] None /\
  edit_phone "0000000000" "oops" r = r.
Proof.
  intro r. split; [reflexivity|]. split.
  - apply (proj1 (edit_phone_replaces_first_unvalidated r "5555555555" "oops")
             [mkField "1234567890"] (mkField "5555555555") []).
    + reflexivity.
    + reflexivity.
    + intros q [<-|[]]. discriminate.
  - apply (proj2 (edit_phone_replaces_first_unvalidated r "0000000000" "oops")).
    intros q [<-|[<-|[]]]; discriminate.
Defined.

(** ** [AddressBook] *)

Arguments PyStr.T : simpl never.

Lemma lower_char_idempotent (c : ascii) : lower_char (lower_char c) = lower_char c.
Proof. destruct c as [[] [] [] [] [] [] [] []]; reflexivity. Qed.

Lemma lower_idempotent (s : string) : lower (lower s) = lower s.
Proof.
  induction s as [|c s IH]; simpl; [reflexivity|].
  now rewrite lower_char_idempotent, IH.
Qed.

Lemma lower_empty (s : string) : lower s = EmptyString -> s = EmptyString.
Proof. destruct s; [reflexivity | discriminate]. Qed.

Lemma lower_digit_char (c : ascii) : isdigit_char c = true -> lower_char c = c.
Proof. destruct c as [[] [] [] [] [] [] [] []]; (reflexivity || discriminate). Qed.

Lemma lower_digits (l : list ascii) :
  forallb isdigit_char l = true ->
  lower (string_of_list_ascii l) = string_of_list_ascii l.
Proof.
  induction l as [|c l IH]; simpl; [reflexivity|].
  intro H. apply andb_true_iff in H as [Hc Hl].
  now rewrite (lower_digit_char _ Hc), IH.
Qed.

Lemma Phone_lower_case (s : string) (f : Field) :
  Phone s = Ok f -> f = mkField s /\ lower_case s.
Proof.
  unfold Phone. destruct (isdigit s) eqn:D; simpl; [|discriminate].
  destruct (Nat.eqb (String.length s) 10); simpl; [|discriminate].
  intro H. split; [congruence|].
  unfold lower_case. rewrite <- (string_of_list_ascii_of_string s).
  apply lower_digits. destruct s; [discriminate | exact D].
Qed.

Lemma dict_get_set_same (k : string) (v : ContactRecord) (d : AddressBook) :
  dict_get k (dict_set k v d) = Some v.
Proof.
  induction d as [|[k' v'] d IH]; simpl.
  - now rewrite String.eqb_refl.
  - destruct (String.eqb k' k) eqn:E; simpl; rewrite E; [reflexivity | exact IH].
Qed.

Lemma dict_get_set_other (k k' : string) (v : ContactRecord) (d : AddressBook) :
  k <> k' -> dict_get k' (dict_set k v d) = dict_get k' d.
Proof.
  intro N. apply String.eqb_neq in N.
  induction d as [|[k0 v0] d IH]; simpl.
  - now rewrite N.
  - destruct (String.eqb k0 k) eqn:E; simpl.
    + apply String.eqb_eq in E. subst k0. now rewrite N.
    + now rewrite IH.
Qed.

Lemma dict_get_absent (k : string) (d : AddressBook) :
  ~ In k (keys d) -> dict_get k d = None.
Proof.
  induction d as [|[k' v'] d IH]; simpl; intro H; [reflexivity|].
  destruct (String.eqb k' k) eqn:E.
  - apply String.eqb_eq in E. elim H. now left.
  - apply IH. intro Hin. apply H. now right.
Qed.

Lemma dict_get_present (k : string) (d : AddressBook) (v : ContactRecord) :
  dict_get k d = Some v -> In (k, v) d.
Proof.
  induction d as [|[k' v'] d IH]; simpl; [discriminate|].
  destruct (String.eqb k' k) eqn:E.
  - apply String.eqb_eq in E. intro H. left. congruence.
  - intro H. right. now apply IH.
Qed.

(** C7.  After [add_record record], [find] with any case variant of the
    record's name returns that record; [find] with a name whose lower-cased
    form is not a key of the book returns nothing. *)
Theorem find_after_add_record
    (book : AddressBook) (record : ContactRecord) (n : string) :
  (case_variant n (value (name record)) ->
     find n (add_record record book) = Some record) /\
  (~ In (lower n) (keys book) -> find n book = None).
Proof.
  split.
  - unfold case_variant, find, add_record. intros ->. apply dict_get_set_same.
  - unfold find. apply dict_get_absent.
Qed.

(** Witness for [find]: a record named Bob is found as BOB in a book that
    already held another contact, and nobody is found in the empty book. *)
Lemma find_after_add_record_witness :
  let alice := mkRecord (mkField "alice") [mkField "1234567890"] None in
  let bob := mkRecord (mkField "Bob") [] None in
  find "BOB" (add_record bob [("alice", alice)]) = Some bob /\
  find "Bob" [] = None.
Proof.
  intros alice bob. split.
  - apply (proj1 (find_after_add_record [("alice", alice)] bob "BOB")).
    reflexivity.
  - apply (proj2 (find_after_add_record [] bob "Bob")).
    simpl. intros [].
Defined.

(** ** The handlers *)

Import Handlers.

Lemma with_record_found {A} (key : string) (m : M ContactRecord A)
    (book : AddressBook) (record record' : ContactRecord) (res : result A) :
  dict_get key book = Some record ->
  m record = (res, record') ->
  with_record key m book = (res, dict_set key record' book).
Proof. intros Hg Hm. unfold with_record. now rewrite Hg, Hm. Qed.

(** What [add_contact] does with two arguments: the test for an existing
    contact looks the name up as it was typed. *)
Lemma add_contact_two_args (n phone : string) (book : AddressBook) :
  add_contact [n; phone] book =
    if dict_mem n book
    then (Ok (T "Contact already exists. Use 'change' to update."), book)
    else match n with
         | EmptyString => (Ok (T "Give me name and phone please."), book)
         | _ =>
             match Phone phone with
             | Ok f =>
                 (Ok (T "Contact added."),
                  add_record (mkRecord (mkField (lower n)) [f] None) book)
             | Raise _ =>
                 (Ok (T "Phone number must be a 10-digit number"), book)
             end
         end.
Proof.
  unfold add_contact, input_error, try_except, bind, lift, get, modify, ret,
    on_local. simpl.
  destruct (dict_mem n book); simpl; [reflexivity|].
  destruct n as [|c n]; simpl; [reflexivity|].
  unfold add_phone, try_except, bind, lift, modify, ret.
  destruct (Phone_total phone) as [H|H]; rewrite H; reflexivity.
Qed.

(** With fewer or more than two arguments [add_contact] changes nothing. *)
Lemma add_contact_other_args (args : list string) (book : AddressBook) :
  List.length args <> 2 ->
  add_contact args book = (Ok (T "Give me name and phone please."), book).
Proof.
  intro H. destruct args as [|a [|b [|c args]]]; try reflexivity.
  now elim H.
Qed.

(** C1 (what the code does).  In the book that adding Alice produces, the
    contact is kept under the key alice; adding ALICE to it is not rejected:
    the answer is that the contact was added, and the record of Alice is
    overwritten by a new one with the new phone only. *)
Theorem add_contact_other_case_overwrites :
  let alice phone := mkRecord (mkField "alice") [mkField phone] None in
  add_contact ["Alice"; "1234567890"] [] =
    (Ok (T "Contact added."), [("alice", alice "1234567890")]) /\
  add_contact ["ALICE"; "0987654321"] [("alice", alice "1234567890")] =
    (Ok (T "Contact added."), [("alice", alice "0987654321")]).
Proof. split; reflexivity. Qed.

(** C9.  For a contact that exists and has at least one phone, [change]
    with a phone string that fails validation answers the phone-validation
    message, and the record that stays in the book has lost its first
    phone: the removal is not taken back. *)
Theorem change_contact_not_atomic
    (book : AddressBook) (n phone : string) (record : ContactRecord)
    (first : Field) (rest : list Field) (e : exn) :
  find n book = Some record ->
  phones record = first :: rest ->
  Phone phone = Raise e ->
  let book' := snd (change_contact [n; phone] book) in
  change_contact [n; phone] book =
    (Ok (T "Phone number must be a 10-digit number"),
     dict_set (lower n) (set_phones rest record) book) /\
  find n book' = Some (set_phones rest record).
Proof.
  intros Hf Hp He. unfold find in Hf.
  assert (change_contact [n; phone] book =
            (Ok (T "Phone number must be a 10-digit number"),
             dict_set (lower n) (set_phones rest record) book)) as Hc.
  { unfold change_contact, input_error, try_except, bind, lift, get, ret. simpl.
    unfold dict_mem. rewrite Hf. rewrite lower_idempotent.
    rewrite (with_record_found _ _ _ record (set_phones rest record)
               (Raise (PhoneValidationError "Phone number must be a 10-digit number")));
      [reflexivity | exact Hf |].
    unfold bind, get, modify. rewrite Hp.
    unfold Rec.remove_phone. rewrite Hp. simpl remove_first.
    rewrite String.eqb_refl.
    rewrite (add_phone_invalid phone _ e He). reflexivity. }
  simpl. split; [exact Hc|].
  rewrite Hc. simpl. unfold find. apply dict_get_set_same.
Qed.

(** Witness for [change]: Bob has two phones; changing to a string that is
    not a phone number leaves him with the second one only. *)
Lemma change_contact_not_atomic_witness :
  let bob l := mkRecord (mkField "bob") l None in
  let book := [("bob", bob [mkField "1234567890"; mkField "5555555555"])] in
  change_contact ["Bob"; "12ab"] book =
    (Ok (T "Phone number must be a 10-digit number"),
     [("bob", bob [mkField "5555555555"])]) /\
  find "Bob" (snd (change_contact ["Bob"; "12ab"] book)) =
    Some (bob [mkField "5555555555"]).
Proof.
  intros bob book.
  apply (change_contact_not_atomic book "Bob" "12ab"
           (bob [mkField "1234567890"; mkField "5555555555"])
           (mkField "1234567890") [mkField "5555555555"]
           (PhoneValidationError "Phone number must be a 10-digit number"));
    reflexivity.
Defined.

Lemma add_contact_effect (args : list string) (book : AddressBook) :
  snd (add_contact args book) = book \/
  exists n phone,
    args = [n; phone] /\ n <> EmptyString /\
    Phone phone = Ok (mkField phone) /\
    snd (add_contact args book) =
      add_record (mkRecord (mkField (lower n)) [mkField phone] None) book.
Proof.
  destruct args as [|n [|phone [|c args]]];
    try (left; reflexivity).
  rewrite add_contact_two_args.
  destruct (dict_mem n book); [left; reflexivity|].
  destruct n as [|c n]; [left; reflexivity|].
  destruct (Phone_total phone) as [H|H]; rewrite H; [|left; reflexivity].
  right. exists (String c n), phone. repeat split; [discriminate | exact H].
Qed.

Lemma entry_lowered_more (cs cs' : list (list string))
    (entry : string * ContactRecord) :
  (forall args, In args cs -> In args cs') ->
  entry_lowered cs entry -> entry_lowered cs' entry.
Proof.
  intros Hsub. destruct entry as [k r].
  intros (Hk & Hn & Hp & Hb & n & phone & Hin & Hl).
  repeat split; try assumption.
  exists n, phone. split; [now apply Hsub | exact Hl].
Qed.

Lemma dict_set_Forall (P : string * ContactRecord -> Prop)
    (k : string) (v : ContactRecord) (d : AddressBook) :
  P (k, v) -> Forall P d -> Forall P (dict_set k v d).
Proof.
  intros Hv Hd. induction Hd as [|[k' v'] d Hx Hd IH]; simpl.
  - constructor; [exact Hv | constructor].
  - destruct (String.eqb k' k) eqn:E.
    + apply String.eqb_eq in E. subst k'. constructor; assumption.
    + constructor; assumption.
Qed.

Lemma add_contact_lowered (done : list (list string)) (args : list string)
    (book : AddressBook) :
  Forall (entry_lowered done) book ->
  Forall (entry_lowered (done ++ [args])) (snd (add_contact args book)).
Proof.
  intro Hb.
  assert (Forall (entry_lowered (done ++ [args])) book) as Hb'.
  { eapply Forall_impl; [|exact Hb].
    intro entry. apply entry_lowered_more.
    intros a Ha. apply in_or_app. now left. }
  destruct (add_contact_effect args book) as [->|(n & phone & -> & Hn & Hp & ->)];
    [exact Hb'|].
  unfold add_record. simpl. rewrite lower_idempotent.
  apply dict_set_Forall; [|exact Hb'].
  simpl. repeat split.
  - unfold lower_case. apply lower_idempotent.
  - constructor; [|constructor]. simpl.
    apply (Phone_lower_case phone _ Hp).
  - exists n, phone. split; [|reflexivity].
    apply in_or_app. right. now left.
Qed.

Lemma run_adds_lowered (cmds : list (list string)) :
  forall (done : list (list string)) (book : AddressBook),
    Forall (entry_lowered done) book ->
    Forall (entry_lowered (done ++ cmds)) (run_adds cmds book).
Proof.
  induction cmds as [|args cmds IH]; intros done book Hb; simpl.
  - now rewrite app_nil_r.
  - replace (done ++ args :: cmds) with ((done ++ [args]) ++ cmds)
      by (now rewrite <- app_assoc).
    apply IH. now apply add_contact_lowered.
Qed.

(** C10.  In a book filled from empty by calls of the add handler, every
    entry has as key the stored name of its record; that name is the
    lower-cased first argument of one of the calls, and neither it nor any
    other string of the entry changes under lower-casing: the casing typed
    by the user is not kept. *)
Theorem add_contact_stores_lowered_names (cmds : list (list string)) :
  Forall (entry_lowered cmds) (run_adds cmds []).
Proof. apply (run_adds_lowered cmds [] []). constructor. Qed.

Example run_adds_two_contacts :
  run_adds [["Alice"; "1234567890"]; ["BOB"; "0987654321"]; ["Carl"; "12"]] [] =
    [("alice", mkRecord (mkField "alice") [mkField "1234567890"] None);
     ("bob", mkRecord (mkField "bob") [mkField "0987654321"] None)].
Proof. reflexivity. Qed.

(** ** [strptime] and [Birthday] *)

Import Datetime Strptime.

Section Dates.
Local Open Scope Z_scope.

Lemma Z_range_cases (P : Z -> Prop) (lo : Z) (n : nat) :
  (forall i, (i < n)%nat -> P (lo + Z.of_nat i)) ->
  forall d, lo <= d < lo + Z.of_nat n -> P d.
Proof.
  intros H d Hd. replace d with (lo + Z.of_nat (Z.to_nat (d - lo))) by lia.
  apply H. lia.
Qed.

(** After the day, written with two digits or without its leading zero,
    and a dot, the matcher goes on with what follows in one way only. *)
Lemma day_then_dot {B} (K : string -> string -> list B)
    (ds : string) (d : Z) (rest : string) :
  1 <= d <= 31 ->
  ds = fmt2 d \/ ds = fmt_short d ->
  flat_map (fun '(t, s1) =>
              flat_map (fun '(_, s2) => K t s2) (rmatch (Chr ".") s1))
           (rmatch re_d (ds ++ String "." rest)%string) = K ds rest.
Proof.
  intro Hd. assert (1 <= d < 1 + Z.of_nat 31) as Hd' by lia. clear Hd.
  revert ds. pattern d. apply (Z_range_cases _ 1 31); [|exact Hd']. clear d Hd'.
  intros i Hi ds Hds.
  do 31 (destruct i as [|i];
         [destruct Hds as [-> | ->]; cbn; rewrite ?app_nil_r; reflexivity|]).
  exfalso; lia.
Qed.

Lemma month_then_dot {B} (K : string -> string -> list B)
    (ms : string) (m : Z) (rest : string) :
  1 <= m <= 12 ->
  ms = fmt2 m \/ ms = fmt_short m ->
  flat_map (fun '(t, s1) =>
              flat_map (fun '(_, s2) => K t s2) (rmatch (Chr ".") s1))
           (rmatch re_m (ms ++ String "." rest)%string) = K ms rest.
Proof.
  intro Hm. assert (1 <= m < 1 + Z.of_nat 12) as Hm' by lia. clear Hm.
  revert ms. pattern m. apply (Z_range_cases _ 1 12); [|exact Hm']. clear m Hm'.
  intros i Hi ms Hms.
  do 12 (destruct i as [|i];
         [destruct Hms as [-> | ->]; cbn; rewrite ?app_nil_r; reflexivity|]).
  exfalso; lia.
Qed.

(** The pattern on a day and a month, each with two digits or without its
    leading zero: one way to match, whatever follows the second dot. *)
Lemma match_dmY_day_month (ds ms : string) (d m : Z) (ys : string) :
  1 <= d <= 31 -> 1 <= m <= 12 ->
  ds = fmt2 d \/ ds = fmt_short d ->
  ms = fmt2 m \/ ms = fmt_short m ->
  match_dmY (dotted ds ms ys) =
    map (fun '(Y, s5) => (ds, ms, Y, s5)) (rmatch re_Y ys).
Proof.
  intros Hd Hm Hds Hms. unfold match_dmY, dotted.
  change ("." ++ ms ++ "." ++ ys)%string with (String "." (ms ++ String "." ys)%string).
  etransitivity.
  { apply (day_then_dot
             (fun t s2 =>
                flat_map (fun '(m, s3) =>
                flat_map (fun '(_, s4) =>
                map (fun '(Y, s5) => (t, m, Y, s5)) (rmatch re_Y s4))
                         (rmatch (Chr ".") s3))
                         (rmatch re_m s2))
             ds d _ Hd Hds). }
  apply (month_then_dot
           (fun t s4 => map (fun '(Y, s5) => (ds, t, Y, s5)) (rmatch re_Y s4))
           ms m ys Hm Hms).
Qed.

Lemma py_int_day (ds : string) (d : Z) :
  1 <= d <= 31 -> ds = fmt2 d \/ ds = fmt_short d -> py_int ds = Ok d.
Proof.
  intro Hd. assert (1 <= d < 1 + Z.of_nat 31) as Hd' by lia. clear Hd.
  revert ds. pattern d. apply (Z_range_cases _ 1 31); [|exact Hd']. clear d Hd'.
  intros i Hi ds Hds.
  do 31 (destruct i as [|i]; [destruct Hds as [-> | ->]; reflexivity|]).
  exfalso; lia.
Qed.

(** The ten digits: decimal, not blank, and read back as their value. *)
Lemma digit_char_facts (a : Z) :
  0 <= a <= 9 ->
  is_decimal (digit_char a) = true /\
  isspace_char (digit_char a) = false /\
  digit_value (digit_char a) = a.
Proof.
  intro Ha. assert (0 <= a < 0 + Z.of_nat 10) as Ha' by lia. clear Ha.
  pattern a. apply (Z_range_cases _ 0 10); [|exact Ha']. clear a Ha'.
  intros i Hi.
  do 10 (destruct i as [|i]; [repeat split; reflexivity|]).
  exfalso; lia.
Qed.

(** Four digits are matched by [%Y] in one way only, to their end, and
    [int] reads their number. *)
Lemma four_digits (a b c e : Z) :
  0 <= a <= 9 -> 0 <= b <= 9 -> 0 <= c <= 9 -> 0 <= e <= 9 ->
  let s := String (digit_char a) (String (digit_char b)
          (String (digit_char c) (String (digit_char e) EmptyString))) in
  rmatch re_Y s = [(s, EmptyString)] /\
  py_int s = Ok (1000 * a + 100 * b + 10 * c + e).
Proof.
  intros Ha Hb Hc He.
  destruct (digit_char_facts a Ha) as (Da & Sa & Va).
  destruct (digit_char_facts b Hb) as (Db & Sb & Vb).
  destruct (digit_char_facts c Hc) as (Dc & Sc & Vc).
  destruct (digit_char_facts e He) as (De & Se & Ve).
  intro s. subst s. split.
  - unfold re_Y. cbn [rmatch match_char flat_map map app].
    rewrite Da. cbn [rmatch match_char flat_map map app].
    rewrite Db. cbn [rmatch match_char flat_map map app].
    rewrite Dc. cbn [rmatch match_char flat_map map app].
    rewrite De. reflexivity.
  - unfold py_int, strip. cbn [lstrip]. rewrite Sa.
    cbn [rstrip]. rewrite Se. cbv iota.
    cbn [list_ascii_of_string forallb]. rewrite Da, Db, Dc, De.
    cbn [andb int_digits]. rewrite Va, Vb, Vc, Ve. f_equal. lia.
Qed.

Lemma year_matches (y : Z) :
  0 <= y <= 9999 ->
  rmatch re_Y (fmt4 y) = [(fmt4 y, EmptyString)] /\ py_int (fmt4 y) = Ok y.
Proof.
  intro Hy.
  destruct (four_digits (y / 1000) (y / 100 mod 10) (y / 10 mod 10) (y mod 10))
    as [H1 H2]; try (Z.div_mod_to_equations; lia).
  split; [exact H1|].
  unfold fmt4. rewrite H2. f_equal. Z.div_mod_to_equations; lia.
Qed.

(** What [strptime] makes of a dotted date: the date constructor applied to
    the three numbers. *)
Lemma strptime_dotted (ds ms : string) (d m y : Z) :
  1 <= d <= 31 -> 1 <= m <= 12 -> 0 <= y <= 9999 ->
  ds = fmt2 d \/ ds = fmt_short d ->
  ms = fmt2 m \/ ms = fmt_short m ->
  strptime (dotted ds ms (fmt4 y)) = midnight y m d.
Proof.
  intros Hd Hm Hy Hds Hms. unfold strptime.
  rewrite (match_dmY_day_month ds ms d m (fmt4 y) Hd Hm Hds Hms).
  destruct (year_matches y Hy) as [-> Hi]. simpl map. cbv iota beta.
  rewrite Hi.
  rewrite (py_int_day ms m) by (lia || assumption).
  rewrite (py_int_day ds d) by assumption.
  reflexivity.
Qed.

Lemma days_in_month_bounds (y m : Z) : 28 <= days_in_month y m <= 31.
Proof.
  unfold days_in_month.
  destruct (m =? 2); [destruct (is_leap y); lia|].
  destruct ((m =? 4) || (m =? 6) || (m =? 9) || (m =? 11)); lia.
Qed.

Lemma midnight_valid (y m d : Z) :
  valid_date y m d -> midnight y m d = Ok (mkDatetime y m d 0 0 0 0).
Proof.
  intros (Hy & Hm & Hd). unfold midnight, check_date_fields, MINYEAR, MAXYEAR.
  rewrite (proj2 (Z.leb_le 1 y)), (proj2 (Z.leb_le y 9999)) by lia.
  rewrite (proj2 (Z.leb_le 1 m)), (proj2 (Z.leb_le m 12)) by lia.
  rewrite (proj2 (Z.leb_le 1 d)), (proj2 (Z.leb_le d _)) by lia.
  reflexivity.
Qed.

Lemma midnight_impossible (y m d : Z) :
  1 <= y <= 9999 -> 1 <= m <= 12 -> days_in_month y m < d ->
  midnight y m d = Raise (ValueError "day is out of range for month").
Proof.
  intros Hy Hm Hd. unfold midnight, check_date_fields, MINYEAR, MAXYEAR.
  rewrite (proj2 (Z.leb_le 1 y)), (proj2 (Z.leb_le y 9999)) by lia.
  rewrite (proj2 (Z.leb_le 1 m)), (proj2 (Z.leb_le m 12)) by lia.
  rewrite (proj2 (Z.leb_gt d _)) by lia.
  rewrite andb_false_r. reflexivity.
Qed.

Lemma strptime_valid (ds ms : string) (d m y : Z) :
  valid_date y m d ->
  ds = fmt2 d \/ ds = fmt_short d ->
  ms = fmt2 m \/ ms = fmt_short m ->
  strptime (dotted ds ms (fmt4 y)) = Ok (mkDatetime y m d 0 0 0 0).
Proof.
  intros Hv Hds Hms. pose proof Hv as (Hy & Hm & Hd).
  pose proof (days_in_month_bounds y m).
  rewrite (strptime_dotted ds ms d m y) by (lia || assumption).
  now apply midnight_valid.
Qed.

(** Dates the calendar does not have are refused, in any year. *)
Lemma Birthday_rejects_impossible_dates (d m y : Z) :
  1 <= y <= 9999 -> 1 <= m <= 12 -> days_in_month y m < d <= 31 ->
  Birthday (render_date d m y) =
    Raise (ValueError
      "Invalid date format for birthday. Birthday should be in the format DD.MM.YYYY").
Proof.
  intros Hy Hm Hd. pose proof (days_in_month_bounds y m).
  unfold Birthday, render_date.
  rewrite (strptime_dotted (fmt2 d) (fmt2 m) d m y) by (lia || now left).
  rewrite midnight_impossible by lia. reflexivity.
Qed.

(** C5 (counterexample).  The wrong-width input 1.1.2024 is accepted. *)
Lemma Birthday_accepts_unpadded :
  exists f, Birthday "1.1.2024" = Ok f.
Proof. exists (mkField "1.1.2024"). reflexivity. Qed.

End Dates.

(** ** Day arithmetic *)

(** The library adds days on the ordinal of the date.  [next_day] and
    [add_days] agree with that: each day adds one to the ordinal and leaves
    the time of day alone. *)

Section Ordinals.
Local Open Scope Z_scope.

Lemma days_before_year_succ (y : Z) :
  days_before_year (y + 1) =
    days_before_year y + 365 + (if is_leap y then 1 else 0).
Proof.
  unfold days_before_year, is_leap.
  replace (y + 1 - 1) with y by lia.
  destruct (y mod 4 =? 0) eqn:E4; destruct (y mod 100 =? 0) eqn:E100;
    destruct (y mod 400 =? 0) eqn:E400; simpl;
    rewrite ?Z.eqb_eq, ?Z.eqb_neq in *;
    Z.div_mod_to_equations; lia.
Qed.

Lemma days_before_month_succ (y m : Z) :
  1 <= m ->
  days_before_month y (m + 1) = days_before_month y m + days_in_month y m.
Proof.
  intro Hm. unfold days_before_month.
  replace (Z.to_nat (m + 1 - 1)) with (S (Z.to_nat (m - 1))) by lia.
  simpl days_before_month_aux. f_equal. f_equal. lia.
Qed.

Lemma days_in_year (y : Z) :
  days_before_month y 12 + 31 = 365 + (if is_leap y then 1 else 0).
Proof.
  unfold days_before_month. simpl. unfold days_in_month. simpl.
  destruct (is_leap y); reflexivity.
Qed.

Lemma next_day_ordinal (dt dt' : datetime) :
  valid_date (year dt) (month dt) (day dt) ->
  next_day dt = Ok dt' ->
  toordinal dt' = toordinal dt + 1 /\
  valid_date (year dt') (month dt') (day dt') /\
  (hour dt', minute dt', second dt', microsecond dt') =
    (hour dt, minute dt, second dt, microsecond dt).
Proof.
  intros (Hy & Hm & Hd). unfold next_day, MAXYEAR.
  pose proof (days_in_month_bounds (year dt) (month dt)) as Hb.
  destruct (day dt <? days_in_month (year dt) (month dt)) eqn:E1.
  - apply Z.ltb_lt in E1. intro H; inversion H; subst; clear H.
    unfold toordinal, valid_date; simpl. repeat split; lia.
  - apply Z.ltb_ge in E1.
    destruct (month dt <? 12) eqn:E2.
    + apply Z.ltb_lt in E2. intro H; inversion H; subst; clear H.
      unfold toordinal, valid_date; simpl.
      rewrite days_before_month_succ by lia.
      pose proof (days_in_month_bounds (year dt) (month dt + 1)).
      repeat split; lia.
    + apply Z.ltb_ge in E2.
      destruct (year dt <? 9999) eqn:E3; [|discriminate].
      apply Z.ltb_lt in E3. intro H; inversion H; subst; clear H.
      unfold toordinal, valid_date; simpl.
      rewrite days_before_year_succ.
      assert (month dt = 12) as Hm12 by lia.
      pose proof (days_in_year (year dt)) as Hyr.
      rewrite Hm12 in *.
      assert (days_in_month (year dt) 12 = 31) as H31 by reflexivity.
      pose proof (days_in_month_bounds (year dt + 1) 1).
      change (days_before_month (year dt + 1) 1) with 0.
      repeat split; lia.
Qed.

Lemma add_days_ordinal (n : nat) :
  forall dt dt',
    valid_date (year dt) (month dt) (day dt) ->
    add_days dt n = Ok dt' ->
    toordinal dt' = toordinal dt + Z.of_nat n /\
    valid_date (year dt') (month dt') (day dt') /\
    (hour dt', minute dt', second dt', microsecond dt') =
      (hour dt, minute dt, second dt, microsecond dt).
Proof.
  induction n as [|n IH]; intros dt dt' Hv; simpl add_days.
  - intro H; inversion H; subst. repeat split; try apply Hv. lia.
  - destruct (next_day dt) as [d1|e] eqn:E; simpl; [|discriminate].
    intro H. destruct (next_day_ordinal dt d1 Hv E) as (H1 & H2 & H3).
    destruct (IH d1 dt' H2 H) as (H4 & H5 & H6).
    repeat split; try apply H5; [lia | congruence].
Qed.

End Ordinals.

(** ** [get_birthdays_per_week] *)

Lemma upcoming_loop_spec (today next_week : datetime) (records : list ContactRecord) :
  Forall (fun record =>
            birthday record <> None -> projected_birthday today record <> None)
         records ->
  forall acc,
    upcoming_loop today next_week records acc =
      Ok (acc ++ map name_and_birthday (filter (in_week today next_week) records)).
Proof.
  induction 1 as [|record records Hr _ IH]; intro acc; simpl.
  - now rewrite app_nil_r.
  - unfold in_week, projected_birthday in *.
    destruct (birthday record) as [b|] eqn:Hb; [|apply IH].
    destruct (strptime (value b)) as [parsed|e]; simpl;
      [|exfalso; apply Hr; [discriminate | reflexivity]].
    destruct (replace_year parsed (year today)) as [d|e]; simpl;
      [|exfalso; apply Hr; [discriminate | reflexivity]].
    destruct (dt_ltb today d && dt_leb d next_week); simpl; rewrite IH.
    + rewrite <- (app_assoc acc [_] _). unfold name_and_birthday at 2.
      rewrite Hb. reflexivity.
    + reflexivity.
Qed.

(** X19.  What [get_birthdays_per_week] returns when the week ahead stays within
    the calendar and every birthday of the book exists in the current year:
    the pairs of name and birthday string of the records whose birthday,
    moved to the current year, lies strictly after now and on or before now
    plus 7 days, in the order of the book. *)
Lemma get_birthdays_per_week_window
    (today next_week : datetime) (book : AddressBook) :
  add_days today 7 = Ok next_week ->
  projectable today book ->
  get_birthdays_per_week today book = Ok (upcoming today next_week book).
Proof.
  intros Hw Hp. unfold get_birthdays_per_week. rewrite Hw. simpl.
  now rewrite (upcoming_loop_spec today next_week (map snd book) Hp []).
Qed.

(** A birthday on 2 January, asked on 28 December: moved to the current
    year it lies in the past, so it is not reported although it is five
    days ahead; a birthday on 30 December is. *)
Example year_end_birthday_excluded :
  let r n b := mkRecord (mkField n) [] (Some (mkField b)) in
  get_birthdays_per_week (mkDatetime 2024 12 28 9 30 0 0)
    [("ann", r "ann" "02.01.1990"); ("bob", r "bob" "30.12.1985")] =
    Ok [("bob", "30.12.1985")].
Proof. reflexivity. Qed.

(** C6 (what the code does).  Bob's birthday is 29 February 2024, set
    through the handlers.  Asked in 2025, a year without that day,
    [get_birthdays_per_week] returns no list: moving the birthday to the
    current year raises [ValueError], which nothing catches, and the
    [birthdays] command ends the program.  In the leap year 2028 the same
    book gives the expected answer. *)
Theorem get_birthdays_per_week_leap_day_raises :
  let book :=
    [("bob", mkRecord (mkField "bob") [mkField "1234567890"]
               (Some (mkField "29.02.2024")))] in
  snd (Handlers.add_birthday ["Bob"; "29.02.2024"]
         (snd (add_contact ["Bob"; "1234567890"] []))) = book /\
  get_birthdays_per_week (mkDatetime 2025 2 25 12 0 0 0) book =
    Raise (ValueError "day is out of range for month") /\
  Main.main_turn (mkDatetime 2025 2 25 12 0 0 0) "birthdays" book =
    (Raise (ValueError "day is out of range for month"), book) /\
  get_birthdays_per_week (mkDatetime 2028 2 25 12 0 0 0) book =
    Ok [("bob", "29.02.2024")].
Proof. repeat split; reflexivity. Qed.

(** ** The handlers never let an exception out *)

(** [input_error] turns every exception but [OverflowError] into a message,
    and no handler can end with [OverflowError]: [safe] is kept by every
    construct the handlers are made of. *)

Lemma safe_ret {S A} (a : A) : safe (@ret S A a).
Proof. intro s. exact I. Qed.

Lemma safe_get {S} : safe (@get S).
Proof. intro s. exact I. Qed.

Lemma safe_modify {S} (f : S -> S) : safe (modify f).
Proof. intro s. exact I. Qed.

Lemma safe_lift {S A} (r : result A) : no_overflow r -> safe (@lift S A r).
Proof. intros H s. exact H. Qed.

Lemma safe_bind {S A B} (m : M S A) (k : A -> M S B) :
  safe m -> (forall a, safe (k a)) -> safe (bind m k).
Proof.
  intros Hm Hk s. unfold bind. specialize (Hm s).
  destruct (m s) as [[a|e] s']; [apply Hk | exact Hm].
Qed.

Lemma safe_try_except {S A} (body : M S A) (handler : exn -> option (M S A)) :
  safe body ->
  (forall e h, handler e = Some h -> safe h) ->
  safe (try_except body handler).
Proof.
  intros Hb Hh s. unfold try_except. specialize (Hb s).
  destruct (body s) as [[a|e] s']; [exact I|].
  destruct (handler e) as [h|] eqn:E; [apply (Hh e h E) | exact Hb].
Qed.

Lemma safe_with_record {A} (key : string) (m : M ContactRecord A) :
  safe m -> safe (with_record key m).
Proof.
  intros Hm book. unfold with_record.
  destruct (dict_get key book) as [record|]; [|exact I].
  specialize (Hm record). destruct (m record). exact Hm.
Qed.

Lemma safe_on_local {S A} (m : M ContactRecord A) (record : ContactRecord) :
  safe m -> safe (@on_local S A m record).
Proof.
  intros Hm s. unfold on_local. specialize (Hm record).
  destruct (m record) as [[a|e] r']; [exact I | exact Hm].
Qed.

Lemma safe_if {S A} (b : bool) (m1 m2 : M S A) :
  safe m1 -> safe m2 -> safe (if b then m1 else m2).
Proof. destruct b; auto. Qed.

Lemma no_overflow_unpack2 args : no_overflow (unpack2 args).
Proof. destruct args as [|a [|b [|c l]]]; exact I. Qed.

Lemma no_overflow_first_arg args : no_overflow (first_arg args).
Proof. destruct args; exact I. Qed.

Lemma no_overflow_Phone p : no_overflow (Phone p).
Proof. destruct (Phone_total p) as [H|H]; rewrite H; exact I. Qed.

Lemma no_overflow_init n : no_overflow (init n).
Proof. destruct n; exact I. Qed.

Lemma no_overflow_py_int s : no_overflow (py_int s).
Proof.
  unfold py_int. destruct (strip s); [exact I|].
  match goal with |- context [if ?b then _ else _] => destruct b end; exact I.
Qed.

Lemma no_overflow_midnight y m d : no_overflow (midnight y m d).
Proof.
  unfold midnight, check_date_fields.
  repeat match goal with |- context [if ?b then _ else _] => destruct b end;
    exact I.
Qed.

Lemma no_overflow_strptime s : no_overflow (strptime s).
Proof.
  unfold strptime. destruct (match_dmY s) as [|[[[d m] Y] rest] l]; [exact I|].
  destruct rest; [|exact I].
  pose proof (no_overflow_py_int Y). destruct (py_int Y); [simpl|exact H].
  pose proof (no_overflow_py_int m). destruct (py_int m); [simpl|exact H0].
  pose proof (no_overflow_py_int d). destruct (py_int d); [simpl|exact H1].
  apply no_overflow_midnight.
Qed.

Lemma no_overflow_Birthday b : no_overflow (Birthday b).
Proof.
  unfold Birthday. pose proof (no_overflow_strptime b).
  destruct (strptime b) as [|[]]; simpl in *; auto.
Qed.

Ltac safety :=
  repeat first
    [ apply safe_ret | apply safe_get | apply safe_modify
    | apply safe_lift;
      first [ apply no_overflow_unpack2 | apply no_overflow_first_arg
            | apply no_overflow_Phone | apply no_overflow_init
            | apply no_overflow_Birthday ]
    | apply safe_if | apply safe_with_record | apply safe_on_local
    | apply safe_bind; [|intro]
    | apply safe_try_except; [|let e := fresh in let h := fresh in let E := fresh in
         intros e h E; destruct e; inversion E; subst; clear E]
    | match goal with
      | |- safe (match ?x with _ => _ end) => destruct x
      | |- safe (let (_, _) := ?x in _) => destruct x
      end ].

Lemma safe_add_phone p : safe (add_phone p).
Proof. unfold add_phone. safety. Qed.

Lemma safe_add_birthday b : safe (Rec.add_birthday b).
Proof. unfold Rec.add_birthday. safety. Qed.

(** A decorated handler whose body is [safe] returns a text. *)
Lemma input_error_total {S} (func : M S text) (s : S) :
  safe func -> exists t s', input_error func s = (Ok t, s').
Proof.
  intro H. specialize (H s). unfold input_error, try_except.
  destruct (func s) as [[t|e] s']; [now exists t, s'|].
  destruct e; simpl in H; try contradiction; eexists _, _; reflexivity.
Qed.

(** Every handler returns a text, on every argument list and book. *)
Lemma handlers_total (args : list string) (book : AddressBook) :
  forall h, In h [add_contact; change_contact; show_phone; show_all;
                  Handlers.remove_phone; Handlers.add_birthday; show_birthday] ->
  exists t book', h args book = (Ok t, book').
Proof.
  intros h Hh. simpl in Hh.
  repeat (destruct Hh as [<-|Hh]; [apply input_error_total|]); try contradiction.
  all: safety.
  all: try apply safe_add_phone; try apply safe_add_birthday.
  all: safety.
Qed.

(** ** [parse_input] and [main] *)

(** C3 (what the code does).  On the empty line, and on a line of blanks,
    [parse_input] has no word to unpack: [ValueError] is raised in [main],
    outside every handler, nothing is printed and the program ends. *)
Theorem main_turn_empty_line_raises (now : datetime) (book : AddressBook) :
  Main.main_turn now "" book =
    (Raise (ValueError "not enough values to unpack (expected at least 1, got 0)"),
     book) /\
  Main.main_turn now "   " book =
    (Raise (ValueError "not enough values to unpack (expected at least 1, got 0)"),
     book).
Proof. split; reflexivity. Qed.

(** X17.  On a line that has a first word other than [birthdays], one turn of the
    loop prints exactly one text and raises nothing. *)
Lemma main_turn_prints_once (now : datetime) (line : string) (book : AddressBook)
    (cmd : string) (args : list string) :
  Main.parse_input line = Ok (cmd, args) ->
  cmd <> "birthdays" ->
  exists t book',
    Main.main_turn now line book = (Ok t, book') /\
    List.length (Main.printed_of t) = 1%nat.
Proof.
  intros Hp Hc. unfold Main.main_turn, bind, lift. rewrite Hp.
  assert (forall h,
             In h [add_contact; change_contact; show_phone; show_all;
                   Handlers.remove_phone; Handlers.add_birthday; show_birthday] ->
             exists t book',
               Main.print_result (h args) book = (Ok t, book') /\
               List.length (Main.printed_of t) = 1%nat) as Hh.
  { intros h Hin. destruct (handlers_total args book h Hin) as (t & book' & E).
    exists (Main.Continue [t]), book'. unfold Main.print_result, bind.
    rewrite E. split; reflexivity. }
  destruct (String.eqb cmd "close" || String.eqb cmd "exit");
    [eexists _, _; split; reflexivity|].
  destruct (String.eqb cmd "hello"); [eexists _, _; split; reflexivity|].
  destruct (String.eqb cmd "add"); [apply Hh; simpl; tauto|].
  destruct (String.eqb cmd "change"); [apply Hh; simpl; tauto|].
  destruct (String.eqb cmd "phone"); [apply Hh; simpl; tauto|].
  destruct (String.eqb cmd "all"); [apply Hh; simpl; tauto|].
  destruct (String.eqb cmd "remove"); [apply Hh; simpl; tauto|].
  destruct (String.eqb cmd "add-birthday"); [apply Hh; simpl; tauto|].
  destruct (String.eqb cmd "show-birthday"); [apply Hh; simpl; tauto|].
  destruct (String.eqb cmd "birthdays") eqn:E;
    [apply String.eqb_eq in E; contradiction|].
  eexists _, _; split; reflexivity.
Qed.

(** X18.  The [birthdays] command prints one block, a line saying that there is
    none or a heading followed by one line per birthday, when
    [get_birthdays_per_week] returns; what that method raises ends the
    turn. *)
Lemma main_turn_birthdays (now : datetime) (line : string) (book : AddressBook)
    (args : list string) :
  Main.parse_input line = Ok ("birthdays", args) ->
  match get_birthdays_per_week now book with
  | Ok l =>
      exists printed,
        Main.main_turn now line book = (Ok (Main.Continue printed), book) /\
        List.length printed =
          match l with
          | [] => 1
          | _ => S (List.length l)
          end
  | Raise e => Main.main_turn now line book = (Raise e, book)
  end.
Proof.
  intro Hp. unfold Main.main_turn, bind, lift, get. rewrite Hp. simpl.
  destruct (get_birthdays_per_week now book) as [[|entry l]|e].
  - eexists; split; reflexivity.
  - eexists; split; [reflexivity|]. simpl. now rewrite length_map.
  - reflexivity.
Qed.

(** ** Witnesses for the statements on one turn and on the week ahead *)

Lemma main_turn_prints_once_witness :
  exists t book',
    Main.main_turn (mkDatetime 2024 5 1 9 0 0 0) "Change bob" [] = (Ok t, book') /\
    List.length (Main.printed_of t) = 1%nat.
Proof.
  apply (main_turn_prints_once (mkDatetime 2024 5 1 9 0 0 0) "Change bob" []
           "change" ["bob"]); [reflexivity | discriminate].
Defined.

Lemma main_turn_birthdays_witness :
  exists printed,
    Main.main_turn (mkDatetime 2024 5 1 9 0 0 0) "birthdays" [] =
      (Ok (Main.Continue printed), []) /\
    List.length printed = 1%nat.
Proof.
  exact (main_turn_birthdays (mkDatetime 2024 5 1 9 0 0 0) "birthdays" [] []
           eq_refl).
Defined.

Lemma get_birthdays_per_week_window_witness :
  let r n b := mkRecord (mkField n) [] (Some (mkField b)) in
  get_birthdays_per_week (mkDatetime 2024 6 10 8 0 0 0)
    [("ann", r "ann" "10.06.1991"); ("bob", r "bob" "17.06.1990");
     ("carl", r "carl" "18.06.1990"); ("dan", r "dan" "11.06.2000")] =
    Ok [("bob", "17.06.1990"); ("dan", "11.06.2000")].
Proof.
  intro r.
  apply (get_birthdays_per_week_window (mkDatetime 2024 6 10 8 0 0 0)
           (mkDatetime 2024 6 17 8 0 0 0)).
  - reflexivity.
  - repeat constructor; intros _; discriminate.
Defined.

(** ** More on [Record] *)

Lemma remove_first_absent (phone : string) (l : list Field) :
  (forall q, In q l -> value q <> phone) -> remove_first phone l = l.
Proof.
  induction l as [|p l IH]; intro H; simpl; [reflexivity|].
  destruct (String.eqb (value p) phone) eqn:E.
  - apply String.eqb_eq in E. elim (H p (or_introl eq_refl) E).
  - f_equal. apply IH. intros q Hq. apply H. now right.
Qed.

Lemma remove_first_found (phone : string) (before after : list Field) (p : Field) :
  value p = phone ->
  (forall q, In q before -> value q <> phone) ->
  remove_first phone (before ++ p :: after) = before ++ after.
Proof.
  intros Hp. induction before as [|b before IH]; intro H; simpl.
  - now rewrite (proj2 (String.eqb_eq _ _) Hp).
  - destruct (String.eqb (value b) phone) eqn:E.
    + apply String.eqb_eq in E. elim (H b (or_introl eq_refl) E).
    + f_equal. apply IH. intros q Hq. apply H. now right.
Qed.

(** X1.  [remove_phone] takes out the first phone entry equal to the given
    string and nothing else: later entries with the same value, the name
    and the birthday stay; when no entry is equal the record is unchanged
    and nothing is raised. *)
Theorem remove_phone_removes_first_only (r : ContactRecord) (phone : string) :
  (forall before p after,
      phones r = before ++ p :: after ->
      value p = phone ->
      (forall q, In q before -> value q <> phone) ->
      Rec.remove_phone phone r = mkRecord (name r) (before ++ after) (birthday r)) /\
  ((forall q, In q (phones r) -> value q <> phone) ->
      Rec.remove_phone phone r = r).
Proof.
  split.
  - intros before p after Hl Hp Hb. unfold Rec.remove_phone, set_phones.
    now rewrite Hl, (remove_first_found _ _ _ _ Hp Hb).
  - intro H. unfold Rec.remove_phone. rewrite (remove_first_absent _ _ H).
    apply set_phones_same.
Qed.

Lemma remove_phone_removes_first_only_witness :
  let f := mkField in
  let r := mkRecord (f "bob") [f "1111111111"; f "2222222222"; f "1111111111"] None in
  Rec.remove_phone "1111111111" r =
    mkRecord (f "bob") [f "2222222222"; f "1111111111"] None /\
  Rec.remove_phone "3333333333" r = r.
Proof.
  intros f r. split.
  - apply (proj1 (remove_phone_removes_first_only r "1111111111")
             [] (f "1111111111") [f "2222222222"; f "1111111111"]).
    + reflexivity.
    + reflexivity.
    + intros q [].
  - apply (proj2 (remove_phone_removes_first_only r "3333333333")).
    intros q [<-|[<-|[<-|[]]]]; discriminate.
Defined.

(** X2.  [find_phone] returns the first phone entry equal to the given
    string, and nothing exactly when no entry is equal. *)
Theorem find_phone_first_match (r : ContactRecord) (phone : string) :
  (forall p, find_phone phone r = Some p ->
     value p = phone /\
     exists before after,
       phones r = before ++ p :: after /\
       forall q, In q before -> value q <> phone) /\
  (find_phone phone r = None <->
     forall q, In q (phones r) -> value q <> phone).
Proof.
  unfold find_phone. induction (phones r) as [|a l [IH1 IH2]]; simpl.
  - split; [discriminate|]. split; [intros _ q [] | reflexivity].
  - destruct (String.eqb (value a) phone) eqn:E.
    + apply String.eqb_eq in E. split.
      * intros p Hp. inversion Hp; subst p. split; [exact E|].
        exists [], l. split; [reflexivity | intros q []].
      * split; [discriminate|]. intro H. elim (H a (or_introl eq_refl) E).
    + apply String.eqb_neq in E. split.
      * intros p Hp. destruct (IH1 p Hp) as (Hv & before & after & Hl & Hb).
        split; [exact Hv|]. exists (a :: before), after. split.
        -- simpl. now rewrite Hl.
        -- intros q [<-|Hq]; [exact E | now apply Hb].
      * rewrite IH2. split.
        -- intros H q [<-|Hq]; [exact E | now apply H].
        -- intros H q Hq. apply H. now right.
Qed.

Lemma find_phone_first_match_witness :
  let f := mkField in
  let r := mkRecord (f "bob") [f "1111111111"; f "2222222222"] None in
  (value (f "2222222222") = "2222222222" /\
   exists before after,
     phones r = before ++ f "2222222222" :: after /\
     forall q, In q before -> value q <> "2222222222") /\
  find_phone "3333333333" r = None.
Proof.
  intros f r. split.
  - apply (proj1 (find_phone_first_match r "2222222222") (f "2222222222")).
    reflexivity.
  - apply (proj2 (find_phone_first_match r "3333333333")).
    intros q [<-|[<-|[]]]; discriminate.
Defined.

Lemma py_int_value_error_only (s : string) : value_error_only (py_int s).
Proof.
  unfold py_int. destruct (strip s); [exact I|].
  match goal with |- context [if ?b then _ else _] => destruct b end; exact I.
Qed.

Lemma midnight_value_error_only (y m d : Z) : value_error_only (midnight y m d).
Proof.
  unfold midnight, check_date_fields.
  repeat match goal with |- context [if ?b then _ else _] => destruct b end;
    exact I.
Qed.

Lemma strptime_value_error_only (s : string) : value_error_only (strptime s).
Proof.
  unfold strptime. destruct (match_dmY s) as [|[[[d m] Y] rest] l]; [exact I|].
  destruct rest; [|exact I].
  pose proof (py_int_value_error_only Y) as HY.
  destruct (py_int Y); [simpl|exact HY].
  pose proof (py_int_value_error_only m) as Hm.
  destruct (py_int m); [simpl|exact Hm].
  pose proof (py_int_value_error_only d) as Hd.
  destruct (py_int d); [simpl|exact Hd].
  apply midnight_value_error_only.
Qed.

Lemma Birthday_total (b : string) :
  Birthday b = Ok (mkField b) \/
  Birthday b = Raise (ValueError
    "Invalid date format for birthday. Birthday should be in the format DD.MM.YYYY").
Proof.
  unfold Birthday. pose proof (strptime_value_error_only b) as H.
  destruct (strptime b) as [d|[]]; simpl in H; try contradiction; auto.
Qed.

Lemma add_birthday_valid (b : string) (r : ContactRecord) :
  Birthday b = Ok (mkField b) ->
  Rec.add_birthday b r =
    (Ok "Birthday added.", mkRecord (name r) (phones r) (Some (mkField b))).
Proof.
  intro H. unfold Rec.add_birthday, try_except, bind, lift, modify, ret.
  now rewrite H.
Qed.

Lemma add_birthday_invalid (b : string) (r : ContactRecord) (e : exn) :
  Birthday b = Raise e ->
  Rec.add_birthday b r =
    (Ok "Invalid date format for birthday. Birthday should be in the format DD.MM.YYYY",
     r).
Proof.
  intro H. unfold Rec.add_birthday, try_except, bind, lift, modify, ret.
  destruct (Birthday_total b) as [H'|H']; rewrite H'; [congruence | reflexivity].
Qed.

(** X3.  [Record.add_birthday] never raises: on a string [Birthday] accepts
    it sets the birthday, replacing an earlier one, and answers that the
    birthday was added; on any other string it answers the message of the
    class and leaves the record as it was. *)
Theorem add_birthday_sets_or_reports (b : string) (r : ContactRecord) :
  (Birthday b = Ok (mkField b) /\
   Rec.add_birthday b r =
     (Ok "Birthday added.", mkRecord (name r) (phones r) (Some (mkField b)))) \/
  ((exists e, Birthday b = Raise e) /\
   Rec.add_birthday b r =
     (Ok "Invalid date format for birthday. Birthday should be in the format DD.MM.YYYY",
      r)).
Proof.
  destruct (Birthday_total b) as [H|H]; [left | right]; split.
  - exact H.
  - now apply add_birthday_valid.
  - eexists; exact H.
  - now apply (add_birthday_invalid b r _ H).
Qed.

(** X4.  [Record.add_phone] on a string of ten digit characters appends it
    after the phones the record has, whether or not the same number is
    already there, and answers nothing. *)
Theorem add_phone_appends (phone : string) (r : ContactRecord) :
  ten_digit_characters phone ->
  add_phone phone r =
    (Ok None, mkRecord (name r) (phones r ++ [mkField phone]) (birthday r)).
Proof.
  intro H. apply Phone_ok_iff in H.
  unfold add_phone, try_except, bind, lift, modify, ret. now rewrite H.
Qed.

Lemma add_phone_appends_witness :
  let f := mkField in
  add_phone "1234567890" (mkRecord (f "bob") [f "1234567890"] None) =
    (Ok None, mkRecord (f "bob") [f "1234567890"; f "1234567890"] None).
Proof.
  intro f.
  apply (add_phone_appends "1234567890" (mkRecord (f "bob") [f "1234567890"] None)).
  split; [reflexivity | each_char].
Defined.

(** ** More on the dictionary and on [AddressBook] *)

Lemma dict_mem_true (k : string) (d : AddressBook) :
  dict_mem k d = true <-> In k (keys d).
Proof.
  unfold dict_mem. induction d as [|[k' v] d IH]; simpl.
  - split; [discriminate | intros []].
  - destruct (String.eqb k' k) eqn:E.
    + apply String.eqb_eq in E. split; [now left | reflexivity].
    + apply String.eqb_neq in E. rewrite IH. split; [now right|].
      intros [H|H]; [contradiction | exact H].
Qed.

Lemma dict_mem_false (k : string) (d : AddressBook) :
  dict_mem k d = false <-> ~ In k (keys d).
Proof.
  rewrite <- dict_mem_true. destruct (dict_mem k d); split; congruence.
Qed.

Lemma dict_set_same_value (k : string) (v : ContactRecord) (d : AddressBook) :
  dict_get k d = Some v -> dict_set k v d = d.
Proof.
  induction d as [|[k' v'] d IH]; simpl; [discriminate|].
  destruct (String.eqb k' k); intro H; [congruence | now rewrite IH].
Qed.

Lemma keys_dict_set (k : string) (v : ContactRecord) (d : AddressBook) :
  keys (dict_set k v d) = if dict_mem k d then keys d else keys d ++ [k].
Proof.
  unfold dict_mem. induction d as [|[k' v'] d IH]; simpl; [reflexivity|].
  destruct (String.eqb k' k); simpl; [reflexivity|].
  rewrite IH. now destruct (dict_get k d).
Qed.

Lemma dict_set_NoDup (k : string) (v : ContactRecord) (d : AddressBook) :
  NoDup (keys d) -> NoDup (keys (dict_set k v d)).
Proof.
  intro H. rewrite keys_dict_set. destruct (dict_mem k d) eqn:E; [exact H|].
  apply dict_mem_false in E. apply NoDup_app; [exact H | repeat constructor; intros [] |].
  intros x Hx [<-|[]]. contradiction.
Qed.

Lemma keys_dict_del_incl (k x : string) (d : AddressBook) :
  In x (keys (dict_del k d)) -> In x (keys d).
Proof.
  induction d as [|[k' v'] d IH]; simpl; [auto|].
  destruct (String.eqb k' k); simpl; [now right|].
  intros [H|H]; [now left | right; now apply IH].
Qed.

Lemma dict_del_NoDup (k : string) (d : AddressBook) :
  NoDup (keys d) -> NoDup (keys (dict_del k d)).
Proof.
  induction d as [|[k' v'] d IH]; simpl; [auto|].
  intro H. inversion H as [|? ? Hn Hd]; subst.
  destruct (String.eqb k' k); simpl; [exact Hd|].
  constructor; [|now apply IH].
  intro Hin. apply Hn. eapply keys_dict_del_incl, Hin.
Qed.

Lemma dict_get_del_same (k : string) (d : AddressBook) :
  NoDup (keys d) -> dict_get k (dict_del k d) = None.
Proof.
  induction d as [|[k' v'] d IH]; simpl; [reflexivity|].
  intro H. inversion H as [|? ? Hn Hd]; subst.
  destruct (String.eqb k' k) eqn:E; simpl.
  - apply String.eqb_eq in E. subst k'. now apply dict_get_absent.
  - rewrite E. now apply IH.
Qed.

Lemma dict_get_del_other (k k' : string) (d : AddressBook) :
  k <> k' -> dict_get k' (dict_del k d) = dict_get k' d.
Proof.
  intro N. induction d as [|[k0 v0] d IH]; simpl; [reflexivity|].
  destruct (String.eqb k0 k) eqn:E; simpl.
  - apply String.eqb_eq in E. subst k0.
    apply String.eqb_neq in N. now rewrite N.
  - now rewrite IH.
Qed.

Lemma dict_del_absent (k : string) (d : AddressBook) :
  dict_get k d = None -> dict_del k d = d.
Proof.
  induction d as [|[k' v'] d IH]; simpl; [reflexivity|].
  destruct (String.eqb k' k); [discriminate|]. intro H. now rewrite IH.
Qed.

(** X5.  In a book with each key once, [delete] takes the contact out for
    every case variant of its name, leaves every other contact to be found
    as before and keeps the keys distinct; deleting a name that has no
    contact changes nothing. *)
Theorem delete_removes_contact (book : AddressBook) (n m : string) :
  (NoDup (keys book) ->
     (case_variant m n -> find m (delete n book) = None) /\
     NoDup (keys (delete n book))) /\
  (~ case_variant m n -> find m (delete n book) = find m book) /\
  (find n book = None -> delete n book = book).
Proof.
  unfold delete, find, case_variant. repeat split.
  - intros ->. destruct (dict_mem (lower n) book) eqn:E.
    + now apply dict_get_del_same.
    + apply dict_mem_false in E. now apply dict_get_absent.
  - destruct (dict_mem (lower n) book); [now apply dict_del_NoDup | assumption].
  - intro Hm. destruct (dict_mem (lower n) book); [|reflexivity].
    apply dict_get_del_other. congruence.
  - intro H. unfold dict_mem. now rewrite H.
Qed.

Lemma delete_removes_contact_witness :
  let r n := mkRecord (mkField n) [] None in
  let book := [("alice", r "alice"); ("bob", r "bob")] in
  (find "ALICE" (delete "Alice" book) = None /\
   NoDup (keys (delete "Alice" book))) /\
  find "Bob" (delete "Alice" book) = find "Bob" book /\
  delete "Carl" book = book.
Proof.
  intros r book.
  pose proof (delete_removes_contact book "Alice" "ALICE") as (H1 & _ & _).
  pose proof (delete_removes_contact book "Alice" "Bob") as (_ & H2 & _).
  pose proof (delete_removes_contact book "Carl" "Carl") as (_ & _ & H3).
  split; [|split].
  - assert (NoDup (keys book)) as Hn.
    { repeat constructor; simpl; intuition discriminate. }
    destruct (H1 Hn) as [Ha Hb]. split; [apply Ha; reflexivity | exact Hb].
  - apply H2. discriminate.
  - apply H3. reflexivity.
Defined.

(** X6.  [add_record] keeps the order of the book: a record whose key is
    already there takes the place of the old one, a record with a new key
    goes last; the keys stay distinct, and every name with another key is
    found as before. *)
Theorem add_record_keeps_order (record : ContactRecord) (book : AddressBook) :
  let k := lower (value (name record)) in
  keys (add_record record book) =
    (if dict_mem k book then keys book else keys book ++ [k]) /\
  (NoDup (keys book) -> NoDup (keys (add_record record book))) /\
  (forall m, lower m <> k -> find m (add_record record book) = find m book).
Proof.
  intro k. unfold add_record, find. fold k. repeat split.
  - apply keys_dict_set.
  - apply dict_set_NoDup.
  - intros m Hm. apply dict_get_set_other. congruence.
Qed.

Lemma add_record_keeps_order_witness :
  let r n p := mkRecord (mkField n) [mkField p] None in
  let book := [("alice", r "alice" "1111111111"); ("bob", r "bob" "2222222222")] in
  NoDup (keys (add_record (r "Alice" "3333333333") book)) /\
  find "BOB" (add_record (r "Alice" "3333333333") book) = find "BOB" book.
Proof.
  intros r book.
  destruct (add_record_keeps_order (r "Alice" "3333333333") book) as (_ & H1 & H2).
  split.
  - apply H1. repeat constructor; simpl; intuition discriminate.
  - apply H2. discriminate.
Defined.

(** ** More on the handlers *)

(** A method that leaves the record as it is leaves the book as it is. *)
Lemma with_record_unchanged {A} (key : string) (m : M ContactRecord A)
    (book : AddressBook) (record : ContactRecord) (res : result A) :
  dict_get key book = Some record ->
  m record = (res, record) ->
  with_record key m book = (res, book).
Proof.
  intros Hg Hm. rewrite (with_record_found key m book record record res Hg Hm).
  now rewrite (dict_set_same_value _ _ _ Hg).
Qed.

Lemma T_differs (s t : string) : T s = T t -> s = t.
Proof.
  unfold T. revert t. induction s as [|c s IH]; intros [|c' t]; simpl;
    try discriminate; [reflexivity|].
  intro H. inversion H as [[Hc Hs]]. f_equal; [|now apply IH].
  unfold code in Hc. rewrite <- (ascii_N_embedding c), <- (ascii_N_embedding c').
  now rewrite Hc.
Qed.

(** X7.  [change] on an existing contact with a string of ten digit
    characters drops the first phone of the record, if it has one, and puts
    the new phone last, after the others; on a name without contact it
    answers that the contact was not found and changes nothing. *)
Theorem change_contact_moves_to_end (book : AddressBook) (n phone : string) :
  (forall record,
      find n book = Some record ->
      ten_digit_characters phone ->
      change_contact [n; phone] book =
        (Ok (T "Contact updated."),
         dict_set (lower n)
           (mkRecord (name record) (tl (phones record) ++ [mkField phone])
              (birthday record))
           book)) /\
  (find n book = None ->
     change_contact [n; phone] book = (Ok (T "Contact not found."), book)).
Proof.
  unfold find. split.
  - intros record Hf Hp.
    unfold change_contact, input_error, try_except, bind, lift, get, ret. simpl.
    unfold dict_mem. rewrite Hf, lower_idempotent.
    rewrite (with_record_found _ _ _ record
               (mkRecord (name record) (tl (phones record) ++ [mkField phone])
                  (birthday record))
               (Ok (T "Contact updated."))); [reflexivity | exact Hf |].
    unfold bind, get, modify, ret.
    destruct record as [nm [|first rest] bd]; simpl.
    + rewrite (add_phone_valid phone _ (proj2 (Phone_ok_iff phone) Hp)).
      reflexivity.
    + unfold Rec.remove_phone, set_phones. simpl. rewrite String.eqb_refl.
      rewrite (add_phone_valid phone _ (proj2 (Phone_ok_iff phone) Hp)).
      reflexivity.
  - intro Hf.
    unfold change_contact, input_error, try_except, bind, lift, get, ret. simpl.
    unfold dict_mem. now rewrite Hf.
Qed.

Lemma change_contact_moves_to_end_witness :
  let bob l := mkRecord (mkField "bob") l None in
  let book := [("bob", bob [mkField "1111111111"; mkField "2222222222"])] in
  change_contact ["BOB"; "3333333333"] book =
    (Ok (T "Contact updated."),
     [("bob", bob [mkField "2222222222"; mkField "3333333333"])]) /\
  change_contact ["Carl"; "3333333333"] book = (Ok (T "Contact not found."), book).
Proof.
  intros bob book. split.
  - apply (proj1 (change_contact_moves_to_end book "BOB" "3333333333")
             (bob [mkField "1111111111"; mkField "2222222222"])).
    + reflexivity.
    + split; [reflexivity | each_char].
  - apply (proj2 (change_contact_moves_to_end book "Carl" "3333333333")).
    reflexivity.
Defined.

Lemma show_phone_first_arg (n : string) (others : list string) (book : AddressBook) :
  show_phone (n :: others) book =
    match find n book with
    | Some record => (Ok (T (join "; " (map value (phones record)))), book)
    | None => (Ok (T "Contact not found."), book)
    end.
Proof.
  unfold show_phone, input_error, try_except, bind, lift, get, ret, find. simpl.
  unfold dict_mem. rewrite lower_idempotent.
  destruct (dict_get (lower n) book) as [record|] eqn:E; [|reflexivity].
  rewrite (with_record_unchanged _ _ _ record (Ok (T (phone_list record))) E);
    reflexivity.
Qed.

(** X8.  After [add] has added a contact, [phone] with any case variant of
    the name answers the phone that was given. *)
Theorem add_then_show_phone (book : AddressBook) (n phone m : string) :
  n <> EmptyString ->
  dict_mem n book = false ->
  ten_digit_characters phone ->
  case_variant m n ->
  let book' := snd (add_contact [n; phone] book) in
  fst (add_contact [n; phone] book) = Ok (T "Contact added.") /\
  show_phone [m] book' = (Ok (T phone), book').
Proof.
  intros Hn Hm Hp Hv. rewrite add_contact_two_args, Hm.
  destruct n as [|c n]; [now elim Hn|]. cbv iota.
  set (n0 := String c n) in *. clearbody n0.
  rewrite (proj2 (Phone_ok_iff phone) Hp). cbv [fst snd].
  split; [reflexivity|].
  rewrite show_phone_first_arg. unfold find, add_record. cbv [name value].
  rewrite Hv, lower_idempotent, dict_get_set_same. reflexivity.
Qed.

Lemma add_then_show_phone_witness :
  let book' := snd (add_contact ["Bob"; "1234567890"] []) in
  fst (add_contact ["Bob"; "1234567890"] []) = Ok (T "Contact added.") /\
  show_phone ["BOB"] book' = (Ok (T "1234567890"), book').
Proof.
  apply (add_then_show_phone [] "Bob" "1234567890" "BOB").
  - discriminate.
  - reflexivity.
  - split; [reflexivity | each_char].
  - reflexivity.
Defined.

Lemma show_birthday_first_arg (n : string) (others : list string) (book : AddressBook) :
  show_birthday (n :: others) book =
    match find n book with
    | Some record =>
        match birthday record with
        | Some b => (Ok (T (value b)), book)
        | None => (Ok (T "Birthday not set."), book)
        end
    | None => (Ok (T "Contact not found."), book)
    end.
Proof.
  unfold show_birthday, input_error, try_except, bind, lift, get, ret, find. simpl.
  unfold dict_mem. rewrite lower_idempotent.
  destruct (dict_get (lower n) book) as [record|] eqn:E; [|reflexivity].
  destruct (birthday record) as [b|] eqn:Eb.
  - rewrite (with_record_unchanged _ _ _ record (Ok (T (value b))) E);
      [reflexivity|].
    unfold bind, get, ret. now rewrite Eb.
  - rewrite (with_record_unchanged _ _ _ record (Ok (T "Birthday not set.")) E);
      [reflexivity|].
    unfold bind, get, ret. now rewrite Eb.
Qed.

(** X9.  The handlers that only show something, [phone], [all] and
    [show-birthday], leave the book exactly as it was, whatever their
    arguments. *)
Theorem show_handlers_keep_book (args : list string) (book : AddressBook) :
  snd (show_phone args book) = book /\
  snd (show_all args book) = book /\
  snd (show_birthday args book) = book.
Proof.
  repeat split.
  - destruct args as [|n others]; [reflexivity|].
    rewrite show_phone_first_arg. now destruct (find n book).
  - unfold show_all, input_error, try_except, bind, get, ret.
    now destruct book.
  - destruct args as [|n others]; [reflexivity|].
    rewrite show_birthday_first_arg.
    destruct (find n book) as [r|]; [destruct (birthday r)|]; reflexivity.
Qed.

(** X10.  [phone] looks at its first argument only, in any case: for a
    contact it answers the phones of the record joined by semicolons, in
    their order, otherwise that the contact was not found. *)
Theorem show_phone_joins_phones
    (n : string) (others : list string) (book : AddressBook) :
  (forall record,
      find n book = Some record ->
      show_phone (n :: others) book =
        (Ok (T (join "; " (map value (phones record)))), book)) /\
  (find n book = None ->
     show_phone (n :: others) book = (Ok (T "Contact not found."), book)).
Proof.
  split; [intros record H | intro H]; rewrite show_phone_first_arg; now rewrite H.
Qed.

Lemma show_phone_joins_phones_witness :
  let r := mkRecord (mkField "bob") [mkField "1111111111"; mkField "2222222222"] None in
  show_phone ["BOB"; "ignored"] [("bob", r)] =
    (Ok (T "1111111111; 2222222222"), [("bob", r)]) /\
  show_phone ["Carl"] [("bob", r)] = (Ok (T "Contact not found."), [("bob", r)]).
Proof.
  intro r. split.
  - apply (proj1 (show_phone_joins_phones "BOB" ["ignored"] [("bob", r)]) r).
    reflexivity.
  - apply (proj2 (show_phone_joins_phones "Carl" [] [("bob", r)])).
    reflexivity.
Defined.

(** X11.  [remove] does to the book what [AddressBook.delete] does with the
    first argument, and answers accordingly: removed when the contact was
    there, not found when it was not. *)
Theorem remove_handler_deletes
    (n : string) (others : list string) (book : AddressBook) :
  snd (Handlers.remove_phone (n :: others) book) = delete n book /\
  (forall record,
      find n book = Some record ->
      fst (Handlers.remove_phone (n :: others) book) = Ok (T "Contact removed.")) /\
  (find n book = None ->
     fst (Handlers.remove_phone (n :: others) book) = Ok (T "Contact not found.")).
Proof.
  unfold Handlers.remove_phone, input_error, try_except, bind, lift, get, modify,
    ret, delete, find. simpl. unfold dict_mem.
  destruct (dict_get (lower n) book) as [r|]; simpl; repeat split;
    try discriminate; reflexivity.
Qed.

Lemma remove_handler_deletes_witness :
  let r := mkRecord (mkField "bob") [] None in
  fst (Handlers.remove_phone ["BOB"] [("bob", r)]) = Ok (T "Contact removed.") /\
  fst (Handlers.remove_phone ["Carl"] [("bob", r)]) = Ok (T "Contact not found.").
Proof.
  intro r. split.
  - apply (proj1 (proj2 (remove_handler_deletes "BOB" [] [("bob", r)])) r).
    reflexivity.
  - apply (proj2 (proj2 (remove_handler_deletes "Carl" [] [("bob", r)]))).
    reflexivity.
Defined.

(** X12.  [add-birthday] on an existing contact with a date [Birthday]
    accepts sets the birthday of the record, and [show-birthday] with any
    case variant of the name then answers that date; with a string
    [Birthday] refuses, the handler answers the message of the class and
    the book is unchanged. *)
Theorem add_birthday_then_show
    (book : AddressBook) (n date m : string) (record : ContactRecord) :
  find n book = Some record ->
  (Birthday date = Ok (mkField date) ->
   case_variant m n ->
   let book' :=
     dict_set (lower n)
       (mkRecord (name record) (phones record) (Some (mkField date))) book in
   Handlers.add_birthday [n; date] book = (Ok (T "Birthday added."), book') /\
   show_birthday [m] book' = (Ok (T date), book')) /\
  ((exists e, Birthday date = Raise e) ->
   Handlers.add_birthday [n; date] book =
     (Ok (T "Invalid date format for birthday. Birthday should be in the format DD.MM.YYYY"),
      book)).
Proof.
  intro Hf. unfold find in Hf.
  assert (forall res record',
             Rec.add_birthday date record = (Ok res, record') ->
             Handlers.add_birthday [n; date] book =
               (Ok (T res), dict_set (lower n) record' book)) as Hh.
  { intros res record' Hr.
    unfold Handlers.add_birthday, input_error, try_except, bind, lift, get, ret.
    simpl. unfold dict_mem. rewrite Hf, lower_idempotent.
    rewrite (with_record_found _ _ _ record record' (Ok (T res)) Hf);
      [reflexivity|].
    unfold bind, ret. now rewrite Hr. }
  split.
  - intros Hb Hv book'. split.
    + apply Hh. now apply add_birthday_valid.
    + rewrite show_birthday_first_arg. unfold find, book'.
      rewrite Hv, dict_get_set_same. reflexivity.
  - intros [e He]. rewrite (Hh _ record (add_birthday_invalid date record e He)).
    now rewrite (dict_set_same_value _ _ _ Hf).
Qed.

Lemma add_birthday_then_show_witness :
  let bob b := mkRecord (mkField "bob") [mkField "1234567890"] b in
  let book := [("bob", bob None)] in
  let book' := [("bob", bob (Some (mkField "15.06.1990")))] in
  (Handlers.add_birthday ["Bob"; "15.06.1990"] book = (Ok (T "Birthday added."), book') /\
   show_birthday ["BOB"] book' = (Ok (T "15.06.1990"), book')) /\
  Handlers.add_birthday ["Bob"; "31.06.1990"] book =
    (Ok (T "Invalid date format for birthday. Birthday should be in the format DD.MM.YYYY"),
     book).
Proof.
  intros bob book book'. split.
  - apply (proj1 (add_birthday_then_show book "Bob" "15.06.1990" "BOB" (bob None)
                    eq_refl)); reflexivity.
  - apply (proj2 (add_birthday_then_show book "Bob" "31.06.1990" "Bob" (bob None)
                    eq_refl)).
    eexists. reflexivity.
Defined.

(** X13.  [add] changes the book only when it answers that the contact was
    added, and then by one [add_record] of a record with the lower-cased
    name and the one phone; with a refused phone, an empty name, a name
    that is a key, or a wrong number of arguments, the book is as before. *)
Theorem add_contact_adds_or_keeps (args : list string) (book : AddressBook) :
  (exists n phone,
      args = [n; phone] /\ n <> EmptyString /\ dict_mem n book = false /\
      ten_digit_characters phone /\
      add_contact args book =
        (Ok (T "Contact added."),
         add_record (mkRecord (mkField (lower n)) [mkField phone] None) book)) \/
  (snd (add_contact args book) = book /\
   fst (add_contact args book) <> Ok (T "Contact added.")).
Proof.
  assert (forall s, s <> "Contact added." -> Ok (T s) <> Ok (T "Contact added."))
    as Hd.
  { intros s Hs H. inversion H as [H']. now apply T_differs in H'. }
  destruct args as [|n [|phone [|c args]]];
    try (right; split; [reflexivity | apply Hd; discriminate]).
  rewrite add_contact_two_args.
  destruct (dict_mem n book) eqn:Em;
    [right; split; [reflexivity | apply Hd; discriminate]|].
  destruct n as [|c n];
    [right; split; [reflexivity | apply Hd; discriminate]|].
  destruct (Phone_total phone) as [H|H]; rewrite H;
    [|right; split; [reflexivity | apply Hd; discriminate]].
  left. exists (String c n), phone. repeat split; try assumption;
    try discriminate; now apply Phone_ok_iff.
Qed.

(** X14.  A wrong number of arguments never reaches the book.  With fewer
    arguments than it needs each handler answers its own request for them;
    with more than two, [add], [change] and [add-birthday] all answer the
    request for name and phone, because unpacking raises [ValueError]. *)
Theorem handlers_wrong_argument_count (args : list string) (book : AddressBook) :
  (List.length args < 2 ->
     add_contact args book = (Ok (T "Give me name and phone please."), book) /\
     change_contact args book = (Ok (T "Give me name and phone please."), book) /\
     Handlers.add_birthday args book =
       (Ok (T "Give me name and date of birth in the format DD.MM.YYYY."), book)) /\
  (2 < List.length args ->
     add_contact args book = (Ok (T "Give me name and phone please."), book) /\
     change_contact args book = (Ok (T "Give me name and phone please."), book) /\
     Handlers.add_birthday args book =
       (Ok (T "Give me name and phone please."), book)) /\
  (args = [] ->
     show_phone args book = (Ok (T "Give me name and phone please."), book) /\
     Handlers.remove_phone args book =
       (Ok (T "Give me the name of the contact you want to remove."), book) /\
     show_birthday args book =
       (Ok (T "Give me name and date of birth in the format DD.MM.YYYY."), book)).
Proof.
  repeat split.
  all: destruct args as [|a [|b [|c args]]]; try reflexivity;
    simpl in *; try lia; try discriminate.
Qed.

Lemma handlers_wrong_argument_count_witness :
  (add_contact ["Bob"] [] = (Ok (T "Give me name and phone please."), []) /\
   change_contact ["Bob"] [] = (Ok (T "Give me name and phone please."), []) /\
   Handlers.add_birthday ["Bob"] [] =
     (Ok (T "Give me name and date of birth in the format DD.MM.YYYY."), [])) /\
  (add_contact ["Bob"; "1"; "2"] [] = (Ok (T "Give me name and phone please."), []) /\
   change_contact ["Bob"; "1"; "2"] [] = (Ok (T "Give me name and phone please."), []) /\
   Handlers.add_birthday ["Bob"; "1"; "2"] [] =
     (Ok (T "Give me name and phone please."), [])) /\
  (show_phone [] [] = (Ok (T "Give me name and phone please."), []) /\
   Handlers.remove_phone [] [] =
     (Ok (T "Give me the name of the contact you want to remove."), []) /\
   show_birthday [] [] =
     (Ok (T "Give me name and date of birth in the format DD.MM.YYYY."), [])).
Proof.
  split; [|split].
  - apply (proj1 (handlers_wrong_argument_count ["Bob"] [])). simpl. lia.
  - apply (proj1 (proj2 (handlers_wrong_argument_count ["Bob"; "1"; "2"] []))).
    simpl. lia.
  - apply (proj2 (proj2 (handlers_wrong_argument_count [] []))). reflexivity.
Defined.

(** ** [split] and [parse_input] *)

Lemma str_app_assoc (a b c : string) : ((a ++ b) ++ c = a ++ (b ++ c))%string.
Proof. induction a as [|x a IH]; simpl; [reflexivity | now rewrite IH]. Qed.

Lemma str_app_empty (a : string) : (a ++ EmptyString)%string = a.
Proof. induction a as [|x a IH]; simpl; [reflexivity | now rewrite IH]. Qed.

Lemma no_space_tail (c : ascii) (s : string) :
  no_space (String c s) -> isspace_char c = false /\ no_space s.
Proof.
  intro H. split; [apply H; now left | intros x Hx; apply H; now right].
Qed.

Lemma blank_tail (c : ascii) (s : string) :
  blank (String c s) -> isspace_char c = true /\ blank s.
Proof.
  intro H. split; [apply H; now left | intros x Hx; apply H; now right].
Qed.

Lemma no_space_app (a b : string) :
  no_space a -> no_space b -> no_space (a ++ b)%string.
Proof.
  induction a as [|x a IH]; simpl; [auto|].
  intros Ha Hb. apply no_space_tail in Ha as [Hx Ha].
  intros c [<-|Hc]; [exact Hx | now apply (IH Ha Hb)].
Qed.

Lemma split_from_word (u : string) :
  no_space u ->
  forall w rest, split_from w (u ++ rest)%string = split_from (w ++ u)%string rest.
Proof.
  induction u as [|c u IH]; intros Hu w rest; simpl.
  - now rewrite str_app_empty.
  - apply no_space_tail in Hu as [Hc Hu]. rewrite Hc, (IH Hu).
    now rewrite str_app_assoc.
Qed.

Lemma split_from_nothing (w s : string) :
  split_from w s = [] <-> w = EmptyString /\ blank s.
Proof.
  revert w. induction s as [|c s IH]; intro w; simpl.
  - destruct w; simpl; split; try discriminate; try tauto.
    + intros _. split; [reflexivity | intros c []].
    + intros [H _]. discriminate.
  - destruct (isspace_char c) eqn:E.
    + destruct w; simpl.
      * rewrite IH. split.
        -- intros [_ H]. split; [reflexivity|].
           intros x [<-|Hx]; [exact E | now apply H].
        -- intros [_ H]. split; [reflexivity | apply (blank_tail _ _ H)].
      * split; [discriminate | intros [H _]; discriminate].
    + rewrite IH. split.
      * intros [H _]. destruct w; discriminate.
      * intros [_ H]. apply blank_tail in H as [H _]. congruence.
Qed.

Lemma split_from_blank (p : string) :
  blank p -> forall rest, split_from EmptyString (p ++ rest)%string =
                          split_from EmptyString rest.
Proof.
  induction p as [|c p IH]; intros Hp rest; simpl; [reflexivity|].
  apply blank_tail in Hp as [Hc Hp]. rewrite Hc. simpl. now apply IH.
Qed.

Lemma split_from_last (w p : string) :
  w <> EmptyString -> blank p -> split_from w p = [w].
Proof.
  intros Hw Hp. destruct p as [|c p]; simpl.
  - destruct w; [now elim Hw | reflexivity].
  - apply blank_tail in Hp as [Hc Hp]. rewrite Hc.
    rewrite (proj2 (split_from_nothing EmptyString p) (conj eq_refl Hp)).
    destruct w; [now elim Hw | reflexivity].
Qed.

Lemma split_from_space (w rest : string) :
  split_from w (String " " rest) = flush w (split_from EmptyString rest).
Proof. reflexivity. Qed.

Lemma split_joined (post : string) (ws : list string) :
  blank post -> Forall word ws ->
  split_from EmptyString (String.concat " " ws ++ post)%string = ws.
Proof.
  intros Hpost Hws. induction Hws as [|x ws [Hx Hn] Hws IH].
  - simpl. apply split_from_nothing. now split.
  - destruct ws as [|y ws].
    + change (String.concat " " [x]) with x.
      rewrite (split_from_word x Hn). now apply split_from_last.
    + change (String.concat " " (x :: y :: ws))
        with (x ++ String " " (String.concat " " (y :: ws)))%string.
      rewrite str_app_assoc, (split_from_word x Hn).
      change (String " " (String.concat " " (y :: ws)) ++ post)%string
        with (String " " (String.concat " " (y :: ws) ++ post)%string).
      rewrite split_from_space, IH. destruct x; [now elim Hx | reflexivity].
Qed.

Lemma rstrip_no_space (s : string) : no_space s -> rstrip s = s.
Proof.
  induction s as [|c s IH]; intro H; simpl; [reflexivity|].
  apply no_space_tail in H as [Hc H]. rewrite (IH H), Hc. now destruct s.
Qed.

Lemma strip_word (s : string) : no_space s -> strip s = s.
Proof.
  intro H. unfold strip. destruct s as [|c s]; [reflexivity|].
  simpl lstrip. rewrite (proj1 (no_space_tail _ _ H)). now apply rstrip_no_space.
Qed.

Lemma split_from_words (s : string) :
  forall w, w = EmptyString \/ no_space w -> Forall word (split_from w s).
Proof.
  induction s as [|c s IH]; intros w Hw; simpl.
  - destruct w; simpl; [constructor|].
    constructor; [|constructor]. split; [discriminate|].
    destruct Hw as [Hw|Hw]; [discriminate | exact Hw].
  - destruct (isspace_char c) eqn:E.
    + destruct w; simpl; [apply IH; now left|].
      constructor; [|apply IH; now left]. split; [discriminate|].
      destruct Hw as [Hw|Hw]; [discriminate | exact Hw].
    + apply IH. right.
      assert (no_space (String c EmptyString)) as Hc
        by (intros x [<-|[]]; exact E).
      destruct Hw as [->|Hw]; [exact Hc | now apply no_space_app].
Qed.

(** X15.  A line made of a command word and argument words, separated by
    single spaces, with any amount of whitespace before and after, is
    parsed into the lower-cased command and the arguments as they were
    typed. *)
Theorem parse_input_reads_words
    (pre post cmd : string) (args : list string) :
  blank pre -> blank post -> word cmd -> Forall word args ->
  Main.parse_input (pre ++ String.concat " " (cmd :: args) ++ post)%string =
    Ok (lower cmd, args).
Proof.
  intros Hpre Hpost Hcmd Hargs. unfold Main.parse_input, split.
  rewrite (split_from_blank pre Hpre).
  rewrite (split_joined post (cmd :: args) Hpost (Forall_cons _ Hcmd Hargs)).
  now rewrite (strip_word cmd (proj2 Hcmd)).
Qed.

Ltac no_spaces :=
  let c := fresh "c" in
  let Hc := fresh "Hc" in
  intros c Hc; simpl in Hc;
  repeat (destruct Hc as [<-|Hc]; [reflexivity|]);
  contradiction.

Lemma parse_input_reads_words_witness :
  Main.parse_input "  ADD Bob 1234567890 " = Ok ("add", ["Bob"; "1234567890"]).
Proof.
  apply (parse_input_reads_words "  " " " "ADD" ["Bob"; "1234567890"]).
  - no_spaces.
  - no_spaces.
  - split; [discriminate | no_spaces].
  - repeat constructor; try discriminate; no_spaces.
Defined.

(** *** The words of a line *)

Lemma spaced_after_space (c : ascii) (ws : list string) (s : string) :
  isspace_char c = true -> spaced ws s -> spaced ws (String c s).
Proof.
  intro Hc. destruct ws as [|w ws]; simpl.
  - intros H x [<-|Hx]; [exact Hc | now apply H].
  - intros (pre & rest & Hpre & Hw & -> & Ht).
    exists (String c pre), rest. repeat split; try apply Hw; try exact Ht.
    intros x [<-|Hx]; [exact Hc | now apply Hpre].
Qed.

Lemma split_from_spaced (s : string) :
  spaced (split_from EmptyString s) s /\
  forall w, w <> EmptyString -> no_space w ->
    exists u rest ws,
      no_space u /\ s = (u ++ rest)%string /\
      split_from w s = (w ++ u)%string :: ws /\
      ((rest = EmptyString /\ ws = []) \/
       exists c rest',
         rest = String c rest' /\ isspace_char c = true /\ spaced ws rest').
Proof.
  induction s as [|c s [IH1 IH2]].
  - split; [intros x []|].
    intros w Hw Hn. exists EmptyString, EmptyString, []. repeat split.
    + intros x [].
    + simpl. rewrite str_app_empty. destruct w; [now elim Hw | reflexivity].
    + now left.
  - simpl. destruct (isspace_char c) eqn:E.
    + split; [now apply spaced_after_space|].
      intros w Hw Hn. exists EmptyString, (String c s), (split_from EmptyString s).
      repeat split.
      * intros x [].
      * rewrite str_app_empty. destruct w; [now elim Hw | reflexivity].
      * right. now exists c, s.
    + assert (no_space (String c EmptyString)) as Hc
        by (intros x [<-|[]]; exact E).
      split.
      * destruct (IH2 (String c EmptyString)) as (u & rest & ws & Hu & -> & Hs & Ht);
          [discriminate | exact Hc |].
        simpl. rewrite Hs. simpl.
        exists EmptyString, rest. repeat split; try exact Ht.
        -- intros x [].
        -- discriminate.
        -- intros x [<-|Hx]; [exact E | now apply Hu].
      * intros w Hw Hn.
        destruct (IH2 (w ++ String c EmptyString)%string)
          as (u & rest & ws & Hu & -> & Hs & Ht).
        -- destruct w; discriminate.
        -- now apply no_space_app.
        -- exists (String c u), rest, ws. repeat split; try exact Ht.
           ++ intros x [<-|Hx]; [exact E | now apply Hu].
           ++ rewrite Hs. now rewrite str_app_assoc.
Qed.

Lemma spaced_split (ws : list string) :
  forall line, spaced ws line -> split line = ws.
Proof.
  unfold split. induction ws as [|w ws IH]; intros line; simpl.
  - intro H. apply split_from_nothing. now split.
  - intros (pre & rest & Hpre & [Hw Hn] & -> & Ht).
    rewrite (split_from_blank pre Hpre), (split_from_word w Hn). simpl append.
    destruct Ht as [[-> ->]|(c & rest' & -> & Hc & Hs)].
    + simpl. destruct w; [now elim Hw | reflexivity].
    + simpl. rewrite Hc, (IH rest' Hs). destruct w; [now elim Hw | reflexivity].
Qed.

Lemma spaced_words (ws : list string) :
  forall line, spaced ws line -> Forall word ws.
Proof.
  induction ws as [|w ws IH]; intros line; simpl; [constructor|].
  intros (pre & rest & Hpre & Hw & -> & Ht). constructor; [exact Hw|].
  destruct Ht as [[_ ->]|(c & rest' & _ & _ & Hs)]; [constructor|].
  apply (IH rest' Hs).
Qed.

(** X16.  [parse_input] raises [ValueError] exactly on the lines that hold
    nothing but whitespace.  Every other line is laid out in one way as
    words parted by whitespace (whitespace, a word, and then nothing or a
    whitespace character and the rest laid out likewise); the command
    returned is the first of these words, lower-cased, and the arguments
    are the other words, in order and as typed. *)
Theorem parse_input_raises_on_blank_only (line : string) :
  (blank line ->
     Main.parse_input line =
       Raise (ValueError "not enough values to unpack (expected at least 1, got 0)")) /\
  (forall first args,
      spaced (first :: args) line ->
      Main.parse_input line = Ok (lower first, args)) /\
  (~ blank line ->
     exists first args,
       spaced (first :: args) line /\
       Main.parse_input line = Ok (lower first, args) /\
       word first /\ Forall word args).
Proof.
  assert (forall first args,
             spaced (first :: args) line ->
             Main.parse_input line = Ok (lower first, args)) as Hs.
  { intros first args H. unfold Main.parse_input.
    rewrite (spaced_split _ _ H).
    pose proof (spaced_words _ _ H) as Hw. inversion Hw as [|? ? [_ Hn] _]; subst.
    now rewrite (strip_word first Hn). }
  split; [|split; [exact Hs|]].
  - intro H. unfold Main.parse_input, split.
    now rewrite (proj2 (split_from_nothing EmptyString line) (conj eq_refl H)).
  - intro H. pose proof (proj1 (split_from_spaced line)) as Hl.
    destruct (split_from EmptyString line) as [|first args] eqn:E.
    + elim H. exact Hl.
    + exists first, args. pose proof (spaced_words _ _ Hl) as Hw.
      inversion Hw; subst.
      split; [exact Hl | split; [now apply Hs | split; assumption]].
Qed.

Lemma parse_input_raises_on_blank_only_witness :
  Main.parse_input "   " =
    Raise (ValueError "not enough values to unpack (expected at least 1, got 0)") /\
  Main.parse_input " Phone   bob" = Ok ("phone", ["bob"]) /\
  exists first args,
    spaced (first :: args) "Phone bob" /\
    Main.parse_input "Phone bob" = Ok (lower first, args) /\
    word first /\ Forall word args.
Proof.
  split; [|split].
  - apply (proj1 (parse_input_raises_on_blank_only "   ")). no_spaces.
  - apply (proj1 (proj2 (parse_input_raises_on_blank_only " Phone   bob"))
             "Phone" ["bob"]).
    exists " ", "   bob". split; [no_spaces|]. split; [split; [discriminate | no_spaces]|].
    split; [reflexivity|]. right. exists " "%char, "  bob".
    split; [reflexivity|]. split; [reflexivity|].
    exists "  ", EmptyString. split; [no_spaces|].
    split; [split; [discriminate | no_spaces]|]. split; [reflexivity | now left].
  - apply (proj2 (proj2 (parse_input_raises_on_blank_only "Phone bob"))).
    intro H. specialize (H "P"%char (or_introl eq_refl)). discriminate H.
Defined.

(** ** One turn of the loop *)

(** X20.  The words [close] and [exit] end the loop, hand the book as it
    is to [save_address_book] and print the farewell; [hello] prints the
    greeting; a first word that is no command prints that the command is
    invalid; none of them changes the book. *)
Theorem main_turn_dispatch
    (now : datetime) (line cmd : string) (args : list string) (book : AddressBook) :
  Main.parse_input line = Ok (cmd, args) ->
  (cmd = "close" \/ cmd = "exit" ->
     Main.main_turn now line book =
       (Ok (Main.Break [T "Good bye!"] book), book)) /\
  (cmd = "hello" ->
     Main.main_turn now line book =
       (Ok (Main.Continue [T "How can I help you?"]), book)) /\
  (~ In cmd known_commands ->
     Main.main_turn now line book =
       (Ok (Main.Continue [T "Invalid command."]), book)).
Proof.
  intro Hp. unfold Main.main_turn, bind, lift, get, ret. rewrite Hp.
  repeat split.
  - intros [->| ->]; reflexivity.
  - intros ->. reflexivity.
  - intro Hn. unfold known_commands in Hn. simpl in Hn.
    repeat match goal with
           | |- context [String.eqb cmd ?s] =>
               let E := fresh in
               destruct (String.eqb cmd s) eqn:E;
               [apply String.eqb_eq in E; exfalso; apply Hn; subst cmd; tauto|]
           end.
    reflexivity.
Qed.

Lemma main_turn_dispatch_witness :
  Main.main_turn (mkDatetime 2024 5 1 0 0 0 0) "EXIT now" [] =
    (Ok (Main.Break [T "Good bye!"] []), []) /\
  Main.main_turn (mkDatetime 2024 5 1 0 0 0 0) "Hello" [] =
    (Ok (Main.Continue [T "How can I help you?"]), []) /\
  Main.main_turn (mkDatetime 2024 5 1 0 0 0 0) "delete bob" [] =
    (Ok (Main.Continue [T "Invalid command."]), []).
Proof.
  split; [|split].
  - apply (proj1 (main_turn_dispatch (mkDatetime 2024 5 1 0 0 0 0)
                    "EXIT now" "exit" ["now"] [] eq_refl)).
    now right.
  - apply (proj1 (proj2 (main_turn_dispatch (mkDatetime 2024 5 1 0 0 0 0)
                           "Hello" "hello" [] [] eq_refl))).
    reflexivity.
  - apply (proj2 (proj2 (main_turn_dispatch (mkDatetime 2024 5 1 0 0 0 0)
                           "delete bob" "delete" ["bob"] [] eq_refl))).
    simpl. intuition discriminate.
Defined.

(** ** The filing of the book *)

Lemma keeps_name_ret {A} (a : A) : keeps_name (ret a).
Proof. intro r. reflexivity. Qed.

Lemma keeps_name_get : keeps_name get.
Proof. intro r. reflexivity. Qed.

Lemma keeps_name_lift {A} (x : result A) : keeps_name (lift x).
Proof. intro r. reflexivity. Qed.

Lemma keeps_name_modify (f : ContactRecord -> ContactRecord) :
  (forall r, name (f r) = name r) -> keeps_name (modify f).
Proof. intros H r. apply H. Qed.

Lemma keeps_name_bind {A B} (m : M ContactRecord A) (k : A -> M ContactRecord B) :
  keeps_name m -> (forall a, keeps_name (k a)) -> keeps_name (bind m k).
Proof.
  intros Hm Hk r. unfold bind. specialize (Hm r).
  destruct (m r) as [[a|e] r']; simpl in *; [|exact Hm].
  now rewrite (Hk a r').
Qed.

Lemma keeps_name_try_except {A} (body : M ContactRecord A)
    (handler : exn -> option (M ContactRecord A)) :
  keeps_name body ->
  (forall e h, handler e = Some h -> keeps_name h) ->
  keeps_name (try_except body handler).
Proof.
  intros Hb Hh r. unfold try_except. specialize (Hb r).
  destruct (body r) as [[a|e] r']; simpl in *; [exact Hb|].
  destruct (handler e) as [h|] eqn:E; [|exact Hb].
  now rewrite (Hh e h E r').
Qed.

Lemma keeps_name_if {A} (b : bool) (m1 m2 : M ContactRecord A) :
  keeps_name m1 -> keeps_name m2 -> keeps_name (if b then m1 else m2).
Proof. destruct b; auto. Qed.

Ltac name_kept :=
  repeat first
    [ apply keeps_name_ret | apply keeps_name_get | apply keeps_name_lift
    | apply keeps_name_modify; intros []; reflexivity
    | apply keeps_name_if
    | apply keeps_name_bind; [|intro]
    | apply keeps_name_try_except;
      [|let e := fresh in let h := fresh in let E := fresh in
        intros e h E; destruct e; inversion E; subst; clear E]
    | match goal with
      | |- keeps_name (match ?x with _ => _ end) => destruct x
      end ].

Lemma keeps_name_add_phone (p : string) : keeps_name (add_phone p).
Proof. unfold add_phone. name_kept. Qed.

Lemma keeps_name_add_birthday (b : string) : keeps_name (Rec.add_birthday b).
Proof. unfold Rec.add_birthday. name_kept. Qed.

Lemma filed_dict_set (k : string) (v : ContactRecord) (book : AddressBook) :
  k = lower (value (name v)) ->
  filed_by_name book -> filed_by_name (dict_set k v book).
Proof.
  intros Hk [Hn Hf]. split; [now apply dict_set_NoDup|].
  apply dict_set_Forall; [exact Hk | exact Hf].
Qed.

Lemma filed_dict_del (k : string) (book : AddressBook) :
  filed_by_name book -> filed_by_name (dict_del k book).
Proof.
  intros [Hn Hf]. split; [now apply dict_del_NoDup|].
  clear Hn. induction Hf as [|[k' v'] d Hx Hd IH]; simpl; [constructor|].
  destruct (String.eqb k' k); [exact Hd | now constructor].
Qed.

Lemma keeps_filing_ret {A} (a : A) : keeps_filing (ret a).
Proof. intros book H. exact H. Qed.

Lemma keeps_filing_get : keeps_filing get.
Proof. intros book H. exact H. Qed.

Lemma keeps_filing_lift {A} (x : result A) : keeps_filing (lift x).
Proof. intros book H. exact H. Qed.

Lemma keeps_filing_bind {A B} (m : M AddressBook A) (k : A -> M AddressBook B) :
  keeps_filing m -> (forall a, keeps_filing (k a)) -> keeps_filing (bind m k).
Proof.
  intros Hm Hk book H. unfold bind. specialize (Hm book H).
  destruct (m book) as [[a|e] book']; simpl in *; [|exact Hm].
  now apply Hk.
Qed.

Lemma keeps_filing_try_except {A} (body : M AddressBook A)
    (handler : exn -> option (M AddressBook A)) :
  keeps_filing body ->
  (forall e h, handler e = Some h -> keeps_filing h) ->
  keeps_filing (try_except body handler).
Proof.
  intros Hb Hh book H. unfold try_except. specialize (Hb book H).
  destruct (body book) as [[a|e] book']; simpl in *; [exact Hb|].
  destruct (handler e) as [h|] eqn:E; [|exact Hb].
  now apply (Hh e h E).
Qed.

Lemma keeps_filing_if {A} (b : bool) (m1 m2 : M AddressBook A) :
  keeps_filing m1 -> keeps_filing m2 -> keeps_filing (if b then m1 else m2).
Proof. destruct b; auto. Qed.

Lemma keeps_filing_on_local {A} (m : M ContactRecord A) (record : ContactRecord) :
  keeps_filing (on_local m record).
Proof.
  intros book H. unfold on_local. now destruct (m record) as [[a|e] r'].
Qed.

Lemma keeps_filing_add_record (record : ContactRecord) :
  keeps_filing (modify (add_record record)).
Proof. intros book H. now apply filed_dict_set. Qed.

Lemma keeps_filing_dict_del (k : string) : keeps_filing (modify (dict_del k)).
Proof. intros book H. now apply filed_dict_del. Qed.

Lemma keeps_filing_with_record {A} (key : string) (m : M ContactRecord A) :
  keeps_name m -> keeps_filing (with_record key m).
Proof.
  intros Hm book H. unfold with_record.
  destruct (dict_get key book) as [record|] eqn:E; [|exact H].
  specialize (Hm record). destruct (m record) as [res record']. simpl in *.
  apply filed_dict_set; [|exact H].
  destruct H as [_ Hf]. rewrite Forall_forall in Hf.
  specialize (Hf _ (dict_get_present _ _ _ E)). simpl in Hf. congruence.
Qed.

Ltac filing_kept :=
  repeat first
    [ apply keeps_filing_ret | apply keeps_filing_get | apply keeps_filing_lift
    | apply keeps_filing_on_local | apply keeps_filing_add_record
    | apply keeps_filing_dict_del
    | apply keeps_filing_with_record;
      first [ apply keeps_name_add_phone | apply keeps_name_add_birthday
            | name_kept; first [apply keeps_name_add_phone | idtac]; name_kept ]
    | apply keeps_filing_if
    | apply keeps_filing_bind; [|intro]
    | apply keeps_filing_try_except;
      [|let e := fresh in let h := fresh in let E := fresh in
        intros e h E; destruct e; inversion E; subst; clear E]
    | match goal with
      | |- keeps_filing (match ?x with _ => _ end) => destruct x
      | |- keeps_filing (let (_, _) := ?x in _) => destruct x
      end ].

Lemma main_turn_keeps_filing (now : datetime) (line : string) :
  keeps_filing (Main.main_turn now line).
Proof.
  unfold Main.main_turn, Main.print_result, add_contact, change_contact,
    show_phone, show_all, Handlers.remove_phone, Handlers.add_birthday,
    show_birthday, input_error.
  filing_kept.
Qed.

Lemma filed_entry_found (book : AddressBook) (k : string) (r : ContactRecord) :
  NoDup (keys book) -> In (k, r) book -> dict_get k book = Some r.
Proof.
  induction book as [|[k' v'] d IH]; simpl; [intros _ []|].
  intros Hn Hin. inversion Hn as [|? ? Hk Hd]; subst.
  destruct (String.eqb k' k) eqn:E.
  - apply String.eqb_eq in E. subst k'. destruct Hin as [H|H]; [congruence|].
    elim Hk. change k with (fst (k, r)). now apply in_map.
  - apply String.eqb_neq in E. destruct Hin as [H|H]; [congruence|].
    now apply IH.
Qed.

(** X21.  Whatever lines are typed, and whether the loop goes on, stops or
    ends with an exception, a book that has each key once and every record
    under its lower-cased name stays so; every record that is in the book
    at the end is found by its own name. *)
Theorem main_loop_keeps_filing
    (inputs : list (datetime * string)) (contacts : AddressBook) :
  filed_by_name contacts ->
  let final := snd (Main.main_loop inputs contacts) in
  filed_by_name final /\
  forall k r, In (k, r) final -> find (value (name r)) final = Some r.
Proof.
  intro H.
  assert (filed_by_name (snd (Main.main_loop inputs contacts))) as Hf.
  { revert contacts H. induction inputs as [|[now line] rest IH];
      intros contacts H; simpl; [exact H|].
    pose proof (main_turn_keeps_filing now line contacts H) as Ht.
    destruct (Main.main_turn now line contacts) as [[[printed|printed saved]|e] c'];
      simpl in *; try exact Ht.
    specialize (IH c' Ht). destruct (Main.main_loop rest c') as [[out e] final].
    exact IH. }
  simpl. split; [exact Hf|].
  intros k r Hin. destruct Hf as [Hn Hall]. unfold find.
  rewrite Forall_forall in Hall. specialize (Hall _ Hin). simpl in Hall.
  rewrite <- Hall. now apply filed_entry_found.
Qed.

Lemma main_loop_keeps_filing_witness :
  let t := mkDatetime 2024 5 1 9 0 0 0 in
  let final :=
    snd (Main.main_loop [(t, "add Bob 1234567890"); (t, "add ALICE 0987654321");
                    (t, "change bob 12"); (t, ""); (t, "all")] []) in
  filed_by_name final /\
  forall k r, In (k, r) final -> find (value (name r)) final = Some r.
Proof.
  intro t.
  apply (main_loop_keeps_filing
           [(t, "add Bob 1234567890"); (t, "add ALICE 0987654321");
            (t, "change bob 12"); (t, ""); (t, "all")] []).
  split; constructor.
Defined.

(** ** Which birthdays are listed *)

Section Window.
Local Open Scope Z_scope.

Ltac compare_fields :=
  unfold dt_ltb, dt_leb, dt_compare, fields; cbn [lex_compare];
  repeat match goal with
         | |- context [(?a ?= ?b)] =>
             destruct (Z.compare_spec a b); cbv iota;
             try reflexivity; try discriminate; try lia
         end.

Lemma dt_ltb_later_date (a b : datetime) : date_lt a b -> dt_ltb a b = true.
Proof. unfold date_lt. intro H. compare_fields. Qed.

Lemma dt_leb_later_date (a b : datetime) : date_lt a b -> dt_leb a b = true.
Proof. unfold date_lt. intro H. compare_fields. Qed.

Lemma dt_leb_midnight (a b : datetime) :
  same_date a b -> hour a = 0 -> minute a = 0 -> second a = 0 ->
  microsecond a = 0 -> time_from_midnight b -> dt_leb a b = true.
Proof.
  unfold same_date, time_from_midnight. intros H H1 H2 H3 H4 H5. compare_fields.
Qed.

Lemma dt_ltb_midnight_not_later (a b : datetime) :
  year b = year a ->
  (month b < month a \/ (month b = month a /\ day b <= day a)) ->
  hour b = 0 -> minute b = 0 -> second b = 0 -> microsecond b = 0 ->
  time_from_midnight a -> dt_ltb a b = false.
Proof.
  unfold time_from_midnight. intros H H0 H1 H2 H3 H4 H5. compare_fields.
Qed.

Lemma strptime_is_midnight (s : string) (p : datetime) :
  strptime s = Ok p ->
  hour p = 0 /\ minute p = 0 /\ second p = 0 /\ microsecond p = 0.
Proof.
  unfold strptime. destruct (match_dmY s) as [|[[[d m] Y] rest] l]; [discriminate|].
  destruct rest; [|discriminate].
  destruct (py_int Y) as [y|]; [simpl|discriminate].
  destruct (py_int m) as [mo|]; [simpl|discriminate].
  destruct (py_int d) as [dd|]; [simpl|discriminate].
  unfold midnight. destruct (check_date_fields y mo dd); [simpl|discriminate].
  intro H. inversion H. subst p. simpl. auto.
Qed.

Lemma replace_year_fields (p d : datetime) (y : Z) :
  replace_year p y = Ok d ->
  year d = y /\ month d = month p /\ day d = day p /\
  hour d = hour p /\ minute d = minute p /\ second d = second p /\
  microsecond d = microsecond p.
Proof.
  unfold replace_year. destruct (check_date_fields y (month p) (day p));
    [simpl|discriminate].
  intro H. inversion H. subst d. simpl. repeat split.
Qed.

Lemma projected_birthday_fields (today : datetime) (record : ContactRecord)
    (d : datetime) :
  projected_birthday today record = Some d ->
  year d = year today /\
  hour d = 0 /\ minute d = 0 /\ second d = 0 /\ microsecond d = 0.
Proof.
  unfold projected_birthday. destruct (birthday record) as [b|]; [|discriminate].
  destruct (strptime (value b)) as [p|] eqn:Ep; [|discriminate].
  destruct (replace_year p (year today)) as [d'|] eqn:Er; [|discriminate].
  intro H. inversion H. subst d'.
  destruct (strptime_is_midnight _ _ Ep) as (H1 & H2 & H3 & H4).
  destruct (replace_year_fields _ _ _ Er) as (F1 & _ & _ & F4 & F5 & F6 & F7).
  repeat split; congruence.
Qed.

Lemma next_day_later (dt dt' : datetime) :
  next_day dt = Ok dt' ->
  date_lt dt dt' /\
  (hour dt', minute dt', second dt', microsecond dt') =
    (hour dt, minute dt, second dt, microsecond dt).
Proof.
  unfold next_day, date_lt, MAXYEAR.
  destruct (day dt <? days_in_month (year dt) (month dt)) eqn:E1.
  - intro H. inversion H. subst dt'. simpl. split; [lia | reflexivity].
  - destruct (month dt <? 12) eqn:E2.
    + intro H. inversion H. subst dt'. simpl. split; [lia | reflexivity].
    + destruct (year dt <? 9999) eqn:E3; [|discriminate].
      intro H. inversion H. subst dt'. simpl. split; [lia | reflexivity].
Qed.

Lemma date_lt_trans (a b c : datetime) : date_lt a b -> date_lt b c -> date_lt a c.
Proof. unfold date_lt. lia. Qed.

Lemma add_days_later (n : nat) :
  forall dt dt',
    add_days dt (S n) = Ok dt' ->
    date_lt dt dt' /\
    (hour dt', minute dt', second dt', microsecond dt') =
      (hour dt, minute dt, second dt, microsecond dt).
Proof.
  induction n as [|n IH]; intros dt dt'; simpl.
  - destruct (next_day dt) as [d1|] eqn:E; simpl; [|discriminate].
    intro H. inversion H. subst d1. now apply next_day_later.
  - destruct (next_day dt) as [d1|] eqn:E; simpl; [|discriminate].
    intro H. destruct (next_day_later _ _ E) as [L1 T1].
    destruct (IH d1 dt' H) as [L2 T2].
    split; [now apply (date_lt_trans dt d1 dt') | congruence].
Qed.

Lemma add_days_split (a b : nat) :
  forall dt, add_days dt (a + b) = rbind (add_days dt a) (fun x => add_days x b).
Proof.
  induction a as [|a IH]; intro dt; simpl; [reflexivity|].
  destruct (next_day dt) as [d1|]; simpl; [apply IH | reflexivity].
Qed.

Lemma date_lt_same (a b c : datetime) : date_lt a b -> same_date c b -> date_lt a c.
Proof. unfold date_lt, same_date. lia. Qed.

Lemma same_date_lt (a b c : datetime) : same_date a b -> date_lt b c -> date_lt a c.
Proof. unfold date_lt, same_date. lia. Qed.

Lemma passed_not_in_week (today next_week : datetime) (record : ContactRecord) :
  time_from_midnight today ->
  passed_this_year today record ->
  in_week today next_week record = false /\
  (birthday record <> None -> projected_birthday today record <> None).
Proof.
  intros Ht Hp. unfold passed_this_year in Hp. unfold in_week.
  destruct (birthday record) as [b|] eqn:Eb.
  - destruct Hp as (d & Hd & Hmd). rewrite Hd. split; [|discriminate].
    destruct (projected_birthday_fields _ _ _ Hd) as (Hy & H1 & H2 & H3 & H4).
    now rewrite (dt_ltb_midnight_not_later today d Hy Hmd H1 H2 H3 H4 Ht).
  - split; [|intro H; now elim H].
    unfold projected_birthday. now rewrite Eb.
Qed.

Lemma has_passed_true (today : datetime) (record : ContactRecord) :
  has_passed today record = true ->
  exists d,
    projected_birthday today record = Some d /\
    (month d < month today \/ (month d = month today /\ day d <= day today)).
Proof.
  unfold has_passed. destruct (projected_birthday today record) as [d|];
    [|discriminate].
  intro H. exists d. split; [reflexivity|].
  apply orb_true_iff in H as [H|H].
  - left. now apply Z.ltb_lt.
  - right. apply andb_true_iff in H as [H1 H2].
    split; [now apply Z.eqb_eq | now apply Z.leb_le].
Qed.

(** A record in the window has not passed. *)
Lemma in_week_not_passed (today next_week : datetime) (record : ContactRecord) :
  time_from_midnight today ->
  in_week today next_week record = true -> has_passed today record = false.
Proof.
  intros Ht Hw. destruct (has_passed today record) eqn:E; [|reflexivity].
  apply has_passed_true in E as (d & Hd & Hmd).
  unfold in_week in Hw. rewrite Hd in Hw.
  destruct (projected_birthday_fields _ _ _ Hd) as (Hy & H1 & H2 & H3 & H4).
  rewrite (dt_ltb_midnight_not_later today d Hy Hmd H1 H2 H3 H4 Ht) in Hw.
  discriminate.
Qed.

(** The loop steps over a record that has passed. *)
Lemma upcoming_loop_passed (today next_week : datetime) (record : ContactRecord)
    (rest : list ContactRecord) (acc : list (string * string)) :
  time_from_midnight today ->
  has_passed today record = true ->
  upcoming_loop today next_week (record :: rest) acc =
    upcoming_loop today next_week rest acc.
Proof.
  intros Ht Hp. apply has_passed_true in Hp as (d & Hd & Hmd).
  destruct (projected_birthday_fields _ _ _ Hd) as (Hy & H1 & H2 & H3 & H4).
  pose proof (dt_ltb_midnight_not_later today d Hy Hmd H1 H2 H3 H4 Ht) as Hlt.
  unfold projected_birthday in Hd. simpl.
  destruct (birthday record) as [b|]; [|reflexivity].
  destruct (strptime (value b)) as [p|]; [simpl|discriminate].
  destruct (replace_year p (year today)) as [d'|]; [simpl|discriminate].
  inversion Hd; subst d'. now rewrite Hlt.
Qed.

Lemma upcoming_loop_without_passed (today next_week : datetime) (book : AddressBook) :
  time_from_midnight today ->
  forall acc,
    upcoming_loop today next_week (map snd book) acc =
    upcoming_loop today next_week
      (map snd (filter (fun entry => negb (has_passed today (snd entry))) book))
      acc.
Proof.
  intro Ht. induction book as [|[k r] book IH]; intro acc; [reflexivity|].
  simpl filter. simpl map at 1. destruct (has_passed today r) eqn:E.
  - simpl negb. cbv iota. rewrite (upcoming_loop_passed _ _ _ _ _ Ht E). apply IH.
  - simpl negb. cbv iota. simpl.
    destruct (birthday r) as [b|]; [|apply IH].
    destruct (strptime (value b)) as [p|]; [simpl|reflexivity].
    destruct (replace_year p (year today)) as [d|]; [simpl|reflexivity].
    destruct (dt_ltb today d && dt_leb d next_week); apply IH.
Qed.

(** Whatever the loop adds to the list comes from a record in the window. *)
Lemma upcoming_loop_listed (today next_week : datetime)
    (records : list ContactRecord) :
  forall acc l,
    upcoming_loop today next_week records acc = Ok l ->
    forall pair, In pair l ->
      In pair acc \/
      exists record,
        In record records /\ pair = name_and_birthday record /\
        in_week today next_week record = true.
Proof.
  induction records as [|r records IH]; intros acc l; simpl.
  - intro H. inversion H. subst l. auto.
  - unfold in_week, projected_birthday, name_and_birthday in *.
    destruct (birthday r) as [b|] eqn:Eb.
    + destruct (strptime (value b)) as [p|] eqn:Ep; [simpl|discriminate].
      destruct (replace_year p (year today)) as [d|] eqn:Er; [simpl|discriminate].
      destruct (dt_ltb today d && dt_leb d next_week) eqn:Et.
      * intros H pair Hin. destruct (IH _ _ H pair Hin) as [Ha|(r' & Hr & Hp & Hw)].
        -- apply in_app_or in Ha as [Ha|[<-|[]]]; [now left|].
           right. exists r. split; [now left|]. rewrite Eb, Ep, Er. now split.
        -- right. exists r'. split; [now right | now split].
      * intros H pair Hin. destruct (IH _ _ H pair Hin) as [Ha|(r' & Hr & Hp & Hw)];
          [now left|].
        right. exists r'. split; [now right | now split].
    + intros H pair Hin. destruct (IH _ _ H pair Hin) as [Ha|(r' & Hr & Hp & Hw)];
        [now left|].
      right. exists r'. split; [now right | now split].
Qed.

(** X22.  [get_birthdays_per_week] lists nobody whose birthday, in the
    current year, has today's month and day or earlier ones, also when its
    next occurrence, in January of the coming year, is within seven days.
    Such records count for nothing: the result, list or exception, is what
    the book without them gives; every pair in the list is the name and
    birthday of a record of the book that has not passed; and when every
    birthday of the book has passed the list is empty. *)
Theorem passed_birthdays_not_listed (today : datetime) (book : AddressBook) :
  time_from_midnight today ->
  get_birthdays_per_week today book =
    get_birthdays_per_week today
      (filter (fun entry => negb (has_passed today (snd entry))) book) /\
  (forall l,
      get_birthdays_per_week today book = Ok l ->
      forall pair, In pair l ->
        exists key record,
          In (key, record) book /\ pair = name_and_birthday record /\
          has_passed today record = false) /\
  (forall next_week,
      add_days today 7 = Ok next_week ->
      Forall (passed_this_year today) (map snd book) ->
      get_birthdays_per_week today book = Ok []).
Proof.
  intro Ht. split; [|split].
  - unfold get_birthdays_per_week. destruct (add_days today 7) as [nw|];
      [simpl|reflexivity].
    now apply upcoming_loop_without_passed.
  - intros l. unfold get_birthdays_per_week.
    destruct (add_days today 7) as [nw|]; [simpl|discriminate].
    intros H pair Hin.
    destruct (upcoming_loop_listed today nw (map snd book) [] l H pair Hin)
      as [[]|(r & Hr & Hp & Hw)].
    apply in_map_iff in Hr as [[k r'] [E Hr]]. simpl in E. subst r'.
    exists k, r. split; [exact Hr | split; [exact Hp|]].
    now apply (in_week_not_passed today nw).
  - intros next_week Hw Hp. unfold get_birthdays_per_week. rewrite Hw. simpl.
    rewrite upcoming_loop_spec.
    + f_equal. simpl. induction Hp as [|r l Hr Hl IH]; simpl; [reflexivity|].
      now rewrite (proj1 (passed_not_in_week today next_week r Ht Hr)).
    + eapply Forall_impl; [|exact Hp].
      intros r Hr. apply (passed_not_in_week today next_week r Ht Hr).
Qed.

Lemma passed_birthdays_not_listed_witness :
  let r n b := mkRecord (mkField n) [] (Some (mkField b)) in
  let today := mkDatetime 2024 12 28 9 30 0 0 in
  let book :=
    [("ann", r "ann" "02.01.1990"); ("bob", r "bob" "30.12.1985");
     ("carl", r "carl" "28.12.1985")] in
  get_birthdays_per_week today book =
    get_birthdays_per_week today [("bob", r "bob" "30.12.1985")] /\
  (forall pair, In pair [("bob", "30.12.1985")] ->
     exists key record,
       In (key, record) book /\ pair = name_and_birthday record /\
       has_passed today record = false) /\
  get_birthdays_per_week today
    [("ann", r "ann" "02.01.1990"); ("carl", r "carl" "28.12.1985")] = Ok [].
Proof.
  intros r today book.
  assert (time_from_midnight today) as Ht
    by (unfold time_from_midnight; simpl; lia).
  split; [|split].
  - exact (proj1 (passed_birthdays_not_listed today book Ht)).
  - exact (proj1 (proj2 (passed_birthdays_not_listed today book Ht))
             [("bob", "30.12.1985")] eq_refl).
  - apply (proj2 (proj2 (passed_birthdays_not_listed today
                           [("ann", r "ann" "02.01.1990");
                            ("carl", r "carl" "28.12.1985")] Ht))
             (mkDatetime 2025 1 4 9 30 0 0)); [reflexivity|].
    repeat constructor.
    + exists (mkDatetime 2024 1 2 0 0 0 0). split; [reflexivity|]. simpl. lia.
    + exists (mkDatetime 2024 12 28 0 0 0 0). split; [reflexivity|]. simpl. lia.
Defined.

(** X23.  A birthday that falls, in the current year, on one of the seven
    days after today is listed: the record's name and birthday string are
    in the list returned. *)
Theorem birthday_within_week_listed
    (today next_week ahead d : datetime) (book : AddressBook)
    (key : string) (record : ContactRecord) (b : Field) (k : nat) :
  time_from_midnight today ->
  add_days today 7 = Ok next_week ->
  projectable today book ->
  In (key, record) book ->
  birthday record = Some b ->
  projected_birthday today record = Some d ->
  (1 <= k <= 7)%nat ->
  add_days today k = Ok ahead ->
  same_date d ahead ->
  exists l,
    get_birthdays_per_week today book = Ok l /\
    In (value (name record), value b) l.
Proof.
  intros Ht Hw Hp Hin Hb Hd Hk Ha Hs.
  exists (upcoming today next_week book). split.
  - unfold get_birthdays_per_week. rewrite Hw. simpl.
    now rewrite (upcoming_loop_spec today next_week (map snd book) Hp []).
  - unfold upcoming.
    replace (value (name record), value b) with (name_and_birthday record)
      by (unfold name_and_birthday; now rewrite Hb).
    apply in_map, filter_In. split.
    + change record with (snd (key, record)). now apply in_map.
    + unfold in_week. rewrite Hd.
      destruct (projected_birthday_fields _ _ _ Hd) as (Hy & H1 & H2 & H3 & H4).
      destruct k as [|k]; [lia|].
      destruct (add_days_later k today ahead Ha) as [La Ta].
      rewrite (dt_ltb_later_date today d (date_lt_same _ _ _ La Hs)). simpl.
      destruct (Nat.eq_dec (S k) 7) as [E|E].
      * rewrite E in Ha. rewrite Ha in Hw. inversion Hw. subst next_week.
        apply dt_leb_midnight; try assumption.
        unfold time_from_midnight in *. inversion Ta as [[T1 T2 T3 T4]].
        rewrite T1, T2, T3, T4. exact Ht.
      * pose proof (add_days_split (S k) (7 - S k) today) as Hsplit.
        remember (7 - S k)%nat as j0 eqn:Ej. destruct j0 as [|j]; [lia|].
        replace (S k + S j)%nat with 7%nat in Hsplit by lia.
        rewrite Hw, Ha in Hsplit. unfold rbind in Hsplit. symmetry in Hsplit.
        destruct (add_days_later j ahead next_week Hsplit) as [Ln _].
        apply dt_leb_later_date. now apply (same_date_lt d ahead next_week).
Qed.

Lemma birthday_within_week_listed_witness :
  let bob := mkRecord (mkField "bob") [] (Some (mkField "15.06.1990")) in
  exists l,
    get_birthdays_per_week (mkDatetime 2024 6 10 8 0 0 0)
      [("ann", mkRecord (mkField "ann") [] None); ("bob", bob)] = Ok l /\
    In ("bob", "15.06.1990") l.
Proof.
  intro bob.
  apply (birthday_within_week_listed (mkDatetime 2024 6 10 8 0 0 0)
           (mkDatetime 2024 6 17 8 0 0 0) (mkDatetime 2024 6 15 8 0 0 0)
           (mkDatetime 2024 6 15 0 0 0 0)
           [("ann", mkRecord (mkField "ann") [] None); ("bob", bob)]
           "bob" bob (mkField "15.06.1990") 5).
  - unfold time_from_midnight. simpl. lia.
  - reflexivity.
  - repeat constructor.
    + intro H. now elim H.
    + intros _. discriminate.
  - simpl. auto.
  - reflexivity.
  - reflexivity.
  - lia.
  - reflexivity.
  - repeat split.
Defined.

End Window.

(** ** [Birthday]: the strings accepted *)

(** [strptime] read backwards: from a match of the pattern to the text
    matched, which gives the strings [Birthday] accepts, all of them. *)

Section Accepted.
Local Open Scope Z_scope.

(** *** From a match back to the text *)

Lemma in_match_char (p : ascii -> bool) (s t r : string) :
  In (t, r) (match_char p s) ->
  exists c, s = String c r /\ t = String c EmptyString /\ p c = true.
Proof.
  destruct s as [|c s]; simpl; [intros []|].
  destruct (p c) eqn:E; [|intros []].
  intros [H|[]]. inversion H; subst. now exists c.
Qed.

Lemma in_rmatch_cat (r1 r2 : regex) (s t r : string) :
  In (t, r) (rmatch (Cat r1 r2) s) ->
  exists t1 s1 t2,
    In (t1, s1) (rmatch r1 s) /\ In (t2, r) (rmatch r2 s1) /\
    t = (t1 ++ t2)%string.
Proof.
  simpl. intro H. apply in_flat_map in H as [[t1 s1] [H1 H2]].
  apply in_map_iff in H2 as [[t2 s2] [E H2]]. inversion E; subst.
  now exists t1, s1, t2.
Qed.

Lemma in_rmatch_alt (r1 r2 : regex) (s t r : string) :
  In (t, r) (rmatch (Alt r1 r2) s) ->
  In (t, r) (rmatch r1 s) \/ In (t, r) (rmatch r2 s).
Proof. simpl. apply in_app_or. Qed.

Lemma in_class_digit (lo hi c : ascii) :
  in_class lo hi c = true ->
  (48 <= code lo)%N ->
  exists k,
    Z.of_N (code lo) - 48 <= k <= Z.of_N (code hi) - 48 /\ c = digit_char k.
Proof.
  unfold in_class, between. intros H Hlo.
  apply andb_true_iff in H as [H1 H2]. apply N.leb_le in H1, H2.
  exists (Z.of_N (code c) - 48). split; [lia|].
  unfold digit_char.
  replace (Z.to_N (48 + (Z.of_N (code c) - 48))) with (code c) by lia.
  unfold code. now rewrite ascii_N_embedding.
Qed.

Lemma in_chr (c : ascii) (s t r : string) :
  In (t, r) (rmatch (Chr c) s) -> s = String c r /\ t = String c EmptyString.
Proof.
  simpl. intro H. apply in_match_char in H as (c' & Hs & Ht & Hc).
  apply Ascii.eqb_eq in Hc. subst c'. now split.
Qed.

Lemma in_cls (lo hi : ascii) (s t r : string) :
  In (t, r) (rmatch (Cls lo hi) s) ->
  (48 <= code lo)%N ->
  exists k,
    Z.of_N (code lo) - 48 <= k <= Z.of_N (code hi) - 48 /\
    s = String (digit_char k) r /\ t = String (digit_char k) EmptyString.
Proof.
  simpl. intros H Hlo. apply in_match_char in H as (c & Hs & Ht & Hc).
  destruct (in_class_digit lo hi c Hc Hlo) as (k & Hk & ->). now exists k.
Qed.

Lemma in_digit (s t r : string) :
  In (t, r) (rmatch Digit s) ->
  exists k,
    0 <= k <= 9 /\
    s = String (digit_char k) r /\ t = String (digit_char k) EmptyString.
Proof.
  simpl. intro H. apply in_match_char in H as (c & Hs & Ht & Hc).
  destruct (in_class_digit "0" "9" c Hc) as (k & Hk & ->).
  - cbv. discriminate.
  - exists k. split; [|now split]. cbn in Hk. lia.
Qed.

Lemma fmt2_digits (a b : Z) :
  0 <= a <= 9 -> 0 <= b <= 9 ->
  String (digit_char a) (String (digit_char b) EmptyString) = fmt2 (10 * a + b).
Proof.
  intros Ha Hb. unfold fmt2.
  replace ((10 * a + b) / 10) with a by (Z.div_mod_to_equations; lia).
  replace ((10 * a + b) mod 10) with b by (Z.div_mod_to_equations; lia).
  reflexivity.
Qed.

Lemma fmt_short_digit (a : Z) :
  0 <= a <= 9 -> String (digit_char a) EmptyString = fmt_short a.
Proof.
  intro Ha. unfold fmt_short. now rewrite (proj2 (Z.ltb_lt a 10)) by lia.
Qed.

Lemma fmt4_digits (a b c e : Z) :
  0 <= a <= 9 -> 0 <= b <= 9 -> 0 <= c <= 9 -> 0 <= e <= 9 ->
  String (digit_char a) (String (digit_char b)
    (String (digit_char c) (String (digit_char e) EmptyString))) =
  fmt4 (1000 * a + 100 * b + 10 * c + e).
Proof.
  intros Ha Hb Hc He. unfold fmt4.
  set (y := 1000 * a + 100 * b + 10 * c + e).
  replace (y / 1000) with a by (subst y; Z.div_mod_to_equations; lia).
  replace (y / 100 mod 10) with b by (subst y; Z.div_mod_to_equations; lia).
  replace (y / 10 mod 10) with c by (subst y; Z.div_mod_to_equations; lia).
  replace (y mod 10) with e by (subst y; Z.div_mod_to_equations; lia).
  reflexivity.
Qed.

Ltac code_bound := cbv; discriminate.

(** What [%d] can match: a day in one of its three forms. *)
Lemma in_re_d (s t r : string) :
  In (t, r) (rmatch re_d s) ->
  s = (t ++ r)%string /\ exists d, day_text t d.
Proof.
  unfold re_d. intro H.
  apply in_rmatch_alt in H as [H|H]; [|apply in_rmatch_alt in H as [H|H];
    [|apply in_rmatch_alt in H as [H|H]; [|apply in_rmatch_alt in H as [H|H]]]].
  - apply in_rmatch_cat in H as (t1 & s1 & t2 & H1 & H2 & ->).
    apply in_chr in H1 as [-> ->].
    apply in_cls in H2 as (k & Hk & -> & ->); [|code_bound]. cbn in Hk.
    split; [reflexivity|]. exists (10 * 3 + k). split; [lia|]. left.
    apply (fmt2_digits 3 k); lia.
  - apply in_rmatch_cat in H as (t1 & s1 & t2 & H1 & H2 & ->).
    apply in_cls in H1 as (k1 & Hk1 & -> & ->); [|code_bound]. cbn in Hk1.
    apply in_digit in H2 as (k2 & Hk2 & -> & ->).
    split; [reflexivity|]. exists (10 * k1 + k2). split; [lia|]. left.
    apply fmt2_digits; lia.
  - apply in_rmatch_cat in H as (t1 & s1 & t2 & H1 & H2 & ->).
    apply in_chr in H1 as [-> ->].
    apply in_cls in H2 as (k & Hk & -> & ->); [|code_bound]. cbn in Hk.
    split; [reflexivity|]. exists (10 * 0 + k). split; [lia|]. left.
    apply (fmt2_digits 0 k); lia.
  - apply in_cls in H as (k & Hk & -> & ->); [|code_bound]. cbn in Hk.
    split; [reflexivity|]. exists k. split; [lia|]. right. left.
    apply fmt_short_digit; lia.
  - apply in_rmatch_cat in H as (t1 & s1 & t2 & H1 & H2 & ->).
    apply in_chr in H1 as [-> ->].
    apply in_cls in H2 as (k & Hk & -> & ->); [|code_bound]. cbn in Hk.
    split; [reflexivity|]. exists k. split; [lia|]. right. right.
    split; [lia|]. simpl. f_equal. apply fmt_short_digit; lia.
Qed.

(** What [%m] can match: a month in one of its two forms. *)
Lemma in_re_m (s t r : string) :
  In (t, r) (rmatch re_m s) ->
  s = (t ++ r)%string /\ exists m, month_text t m.
Proof.
  unfold re_m. intro H.
  apply in_rmatch_alt in H as [H|H]; [|apply in_rmatch_alt in H as [H|H]].
  - apply in_rmatch_cat in H as (t1 & s1 & t2 & H1 & H2 & ->).
    apply in_chr in H1 as [-> ->].
    apply in_cls in H2 as (k & Hk & -> & ->); [|code_bound]. cbn in Hk.
    split; [reflexivity|]. exists (10 * 1 + k). split; [lia|]. left.
    apply (fmt2_digits 1 k); lia.
  - apply in_rmatch_cat in H as (t1 & s1 & t2 & H1 & H2 & ->).
    apply in_chr in H1 as [-> ->].
    apply in_cls in H2 as (k & Hk & -> & ->); [|code_bound]. cbn in Hk.
    split; [reflexivity|]. exists (10 * 0 + k). split; [lia|]. left.
    apply (fmt2_digits 0 k); lia.
  - apply in_cls in H as (k & Hk & -> & ->); [|code_bound]. cbn in Hk.
    split; [reflexivity|]. exists k. split; [lia|]. right.
    apply fmt_short_digit; lia.
Qed.

(** What [%Y] can match: four digits. *)
Lemma in_re_Y (s t r : string) :
  In (t, r) (rmatch re_Y s) ->
  s = (t ++ r)%string /\ exists y, 0 <= y <= 9999 /\ t = fmt4 y.
Proof.
  unfold re_Y. intro H.
  apply in_rmatch_cat in H as (t1 & s1 & u1 & H1 & H & ->).
  apply in_rmatch_cat in H as (t2 & s2 & u2 & H2 & H & ->).
  apply in_rmatch_cat in H as (t3 & s3 & t4 & H3 & H4 & ->).
  apply in_digit in H1 as (a & Ha & -> & ->).
  apply in_digit in H2 as (b & Hb & -> & ->).
  apply in_digit in H3 as (c & Hc & -> & ->).
  apply in_digit in H4 as (e & He & -> & ->).
  split; [reflexivity|]. exists (1000 * a + 100 * b + 10 * c + e).
  split; [lia|]. simpl. now apply fmt4_digits.
Qed.

Lemma in_match_dmY (s ds ms ys rest : string) :
  In (ds, ms, ys, rest) (match_dmY s) ->
  s = (dotted ds ms ys ++ rest)%string /\
  (exists d, day_text ds d) /\ (exists m, month_text ms m) /\
  exists y, 0 <= y <= 9999 /\ ys = fmt4 y.
Proof.
  unfold match_dmY. intro H.
  apply in_flat_map in H as [[d1 s1] [H1 H]].
  apply in_flat_map in H as [[x2 s2] [H2 H]].
  apply in_flat_map in H as [[m3 s3] [H3 H]].
  apply in_flat_map in H as [[x4 s4] [H4 H]].
  apply in_map_iff in H as [[Y s5] [E H5]]. inversion E; subst.
  apply in_re_d in H1 as [-> Hd].
  apply in_chr in H2 as [-> _].
  apply in_re_m in H3 as [-> Hm].
  apply in_chr in H4 as [-> _].
  apply in_re_Y in H5 as [-> Hy].
  repeat split; try assumption.
  unfold dotted. simpl. rewrite !str_app_assoc. simpl.
  now rewrite !str_app_assoc.
Qed.

(** *** From the text to the match *)

Lemma spaced_day_then_dot {B} (K : string -> string -> list B)
    (d : Z) (rest : string) :
  1 <= d <= 9 ->
  flat_map (fun '(t, s1) =>
              flat_map (fun '(_, s2) => K t s2) (rmatch (Chr ".") s1))
           (rmatch re_d (String " " (fmt_short d) ++ String "." rest)%string) =
    K (String " " (fmt_short d)) rest.
Proof.
  intro Hd. assert (1 <= d < 1 + Z.of_nat 9) as Hd' by lia. clear Hd.
  pattern d. apply (Z_range_cases _ 1 9); [|exact Hd']. clear d Hd'.
  intros i Hi.
  do 9 (destruct i as [|i]; [cbn; rewrite ?app_nil_r; reflexivity|]).
  exfalso; lia.
Qed.

Lemma day_text_then_dot {B} (K : string -> string -> list B)
    (ds : string) (d : Z) (rest : string) :
  day_text ds d ->
  flat_map (fun '(t, s1) =>
              flat_map (fun '(_, s2) => K t s2) (rmatch (Chr ".") s1))
           (rmatch re_d (ds ++ String "." rest)%string) = K ds rest.
Proof.
  intros [Hd [H|[H|[H9 ->]]]].
  - apply (day_then_dot K ds d rest Hd). now left.
  - apply (day_then_dot K ds d rest Hd). now right.
  - apply spaced_day_then_dot. lia.
Qed.

Lemma py_int_day_text (ds : string) (d : Z) : day_text ds d -> py_int ds = Ok d.
Proof.
  intros [Hd [H|[H|[H9 ->]]]].
  - apply py_int_day; [exact Hd | now left].
  - apply py_int_day; [exact Hd | now right].
  - assert (1 <= d < 1 + Z.of_nat 9) as Hd' by lia. clear Hd H9.
    pattern d. apply (Z_range_cases _ 1 9); [|exact Hd']. clear d Hd'.
    intros i Hi.
    do 9 (destruct i as [|i]; [reflexivity|]).
    exfalso; lia.
Qed.

Lemma py_int_month_text (ms : string) (m : Z) : month_text ms m -> py_int ms = Ok m.
Proof. intros [Hm H]. apply py_int_day; [lia | exact H]. Qed.

Lemma match_dmY_texts (ds ms : string) (d m : Z) (ys : string) :
  day_text ds d -> month_text ms m ->
  match_dmY (dotted ds ms ys) =
    map (fun '(Y, s5) => (ds, ms, Y, s5)) (rmatch re_Y ys).
Proof.
  intros Hd [Hm Hms]. unfold match_dmY, dotted.
  change ("." ++ ms ++ "." ++ ys)%string
    with (String "." (ms ++ String "." ys)%string).
  etransitivity.
  { apply (day_text_then_dot
             (fun t s2 =>
                flat_map (fun '(m, s3) =>
                flat_map (fun '(_, s4) =>
                map (fun '(Y, s5) => (t, m, Y, s5)) (rmatch re_Y s4))
                         (rmatch (Chr ".") s3))
                         (rmatch re_m s2))
             ds d _ Hd). }
  apply (month_then_dot
           (fun t s4 => map (fun '(Y, s5) => (ds, t, Y, s5)) (rmatch re_Y s4))
           ms m ys Hm Hms).
Qed.

(** A string of the accepted form is parsed into the date constructor
    applied to its three numbers. *)
Lemma strptime_texts (ds ms : string) (d m y : Z) :
  day_text ds d -> month_text ms m -> 0 <= y <= 9999 ->
  strptime (dotted ds ms (fmt4 y)) = midnight y m d.
Proof.
  intros Hd Hm Hy. unfold strptime.
  rewrite (match_dmY_texts ds ms d m (fmt4 y) Hd Hm).
  destruct (year_matches y Hy) as [-> Hi]. simpl map. cbv iota beta.
  now rewrite Hi, (py_int_month_text ms m Hm), (py_int_day_text ds d Hd).
Qed.

Lemma midnight_ok (y m d : Z) (dt : datetime) :
  midnight y m d = Ok dt -> valid_date y m d.
Proof.
  unfold midnight, check_date_fields, MINYEAR, MAXYEAR, valid_date.
  destruct ((1 <=? y) && (y <=? 9999)) eqn:Ey; [|discriminate].
  destruct ((1 <=? m) && (m <=? 12)) eqn:Em; [|discriminate].
  destruct ((1 <=? d) && (d <=? days_in_month y m)) eqn:Ed; [|discriminate].
  intros _.
  apply andb_true_iff in Ey as [Y1 Y2]. apply andb_true_iff in Em as [M1 M2].
  apply andb_true_iff in Ed as [D1 D2].
  rewrite Z.leb_le in *. lia.
Qed.

(** What [strptime] accepts has the accepted form. *)
Lemma strptime_ok (s : string) (dt : datetime) :
  strptime s = Ok dt -> birthday_text s.
Proof.
  unfold strptime.
  destruct (match_dmY s) as [|[[[ds ms] ys] rest] l] eqn:E; [discriminate|].
  destruct rest; [|discriminate].
  assert (In (ds, ms, ys, EmptyString) (match_dmY s)) as Hin
    by (rewrite E; now left).
  apply in_match_dmY in Hin as (Hs & (d & Hd) & (m & Hm) & (y & Hy & ->)).
  rewrite str_app_empty in Hs.
  rewrite (proj2 (year_matches y Hy)), (py_int_month_text ms m Hm),
    (py_int_day_text ds d Hd). simpl.
  intro H. exists ds, ms, d, m, y.
  split; [exact Hs | split; [exact Hd | split; [exact Hm|]]].
  apply (midnight_ok _ _ _ _ H).
Qed.

Lemma Birthday_ok_iff (s : string) :
  Birthday s = Ok (mkField s) <-> birthday_text s.
Proof.
  unfold Birthday. split.
  - destruct (strptime s) as [dt|e] eqn:E.
    + intros _. apply (strptime_ok s dt E).
    + destruct e; discriminate.
  - intros (ds & ms & d & m & y & -> & Hd & Hm & Hv).
    rewrite (strptime_texts ds ms d m y Hd Hm) by (unfold valid_date in Hv; lia).
    now rewrite (midnight_valid y m d Hv).
Qed.

(** *** Two digits that are no day, or no month *)

Lemma no_day_then_dot {B} (K : string -> string -> list B) (d : Z) (rest : string) :
  0 <= d <= 99 -> ~ 1 <= d <= 31 ->
  flat_map (fun '(t, s1) =>
              flat_map (fun '(_, s2) => K t s2) (rmatch (Chr ".") s1))
           (rmatch re_d (fmt2 d ++ String "." rest)%string) = [].
Proof.
  intro Hd. assert (0 <= d < 0 + Z.of_nat 100) as Hd' by lia. clear Hd.
  pattern d. apply (Z_range_cases _ 0 100); [|exact Hd']. clear d Hd'.
  intros i Hi Hn.
  do 100 (destruct i as [|i]; [first [exfalso; lia | reflexivity]|]).
  exfalso; lia.
Qed.

Lemma no_month_then_dot {B} (K : string -> string -> list B) (m : Z) (rest : string) :
  0 <= m <= 99 -> ~ 1 <= m <= 12 ->
  flat_map (fun '(t, s1) =>
              flat_map (fun '(_, s2) => K t s2) (rmatch (Chr ".") s1))
           (rmatch re_m (fmt2 m ++ String "." rest)%string) = [].
Proof.
  intro Hm. assert (0 <= m < 0 + Z.of_nat 100) as Hm' by lia. clear Hm.
  pattern m. apply (Z_range_cases _ 0 100); [|exact Hm']. clear m Hm'.
  intros i Hi Hn.
  do 100 (destruct i as [|i]; [first [exfalso; lia | reflexivity]|]).
  exfalso; lia.
Qed.

(** A date written with two, two and four digits is parsed only when it is
    a date of the calendar. *)
Lemma strptime_render_ok (d m y : Z) (dt : datetime) :
  0 <= d <= 99 -> 0 <= m <= 99 -> 0 <= y <= 9999 ->
  strptime (render_date d m y) = Ok dt -> valid_date y m d.
Proof.
  intros Hd Hm Hy.
  destruct (Z_le_dec 1 d) as [D1|D1]; [destruct (Z_le_dec d 31) as [D2|D2]|].
  - destruct (Z_le_dec 1 m) as [M1|M1]; [destruct (Z_le_dec m 12) as [M2|M2]|].
    + unfold render_date.
      rewrite (strptime_dotted (fmt2 d) (fmt2 m) d m y) by (lia || now left).
      apply midnight_ok.
    + unfold strptime, render_date, match_dmY, dotted.
      change ("." ++ fmt2 m ++ "." ++ fmt4 y)%string
        with (String "." (fmt2 m ++ String "." (fmt4 y))%string).
      erewrite (day_then_dot _ (fmt2 d) d) by (lia || now left).
      rewrite no_month_then_dot by lia. discriminate.
    + unfold strptime, render_date, match_dmY, dotted.
      change ("." ++ fmt2 m ++ "." ++ fmt4 y)%string
        with (String "." (fmt2 m ++ String "." (fmt4 y))%string).
      erewrite (day_then_dot _ (fmt2 d) d) by (lia || now left).
      rewrite no_month_then_dot by lia. discriminate.
  - unfold strptime, render_date, match_dmY, dotted.
    change ("." ++ fmt2 m ++ "." ++ fmt4 y)%string
      with (String "." (fmt2 m ++ String "." (fmt4 y))%string).
    erewrite no_day_then_dot by lia. discriminate.
  - unfold strptime, render_date, match_dmY, dotted.
    change ("." ++ fmt2 m ++ "." ++ fmt4 y)%string
      with (String "." (fmt2 m ++ String "." (fmt4 y))%string).
    erewrite no_day_then_dot by lia. discriminate.
Qed.

(** C5 (as amended).  [Birthday] accepts every date of the calendar (years
    1 to 9999) written as two-digit day, two-digit month and four-digit year
    separated by dots, and refuses with a [ValueError] carrying the message
    of the class every date so written that the calendar does not have,
    such as 30.02.2024.  Inputs of another width are refused as well, a year
    of two or of five digits or a day of three digits for instance, with one
    exception: the leading zero of the day and of the month may be left out
    (that of the day may also be a space), so that 1.1.2024 is accepted.
    Exactly, among the strings whose characters are code points below 256,
    which are the strings of this development: a string is accepted when it
    is day, month and year parted by dots, the year in four digits, the
    month in two digits or in one without zero, the day likewise or as a
    space and one digit, and the three numbers a date of the calendar;
    every other such string is refused.  Strings with a code point from 256
    on are outside the statement. *)
Theorem Birthday_accepts_calendar_dates :
  (forall d m y,
      0 <= d <= 99 -> 0 <= m <= 99 -> 0 <= y <= 9999 ->
      (valid_date y m d ->
         Birthday (render_date d m y) = Ok (mkField (render_date d m y))) /\
      (~ valid_date y m d ->
         Birthday (render_date d m y) =
           Raise (ValueError
             "Invalid date format for birthday. Birthday should be in the format DD.MM.YYYY"))) /\
  (forall s,
      (birthday_text s -> Birthday s = Ok (mkField s)) /\
      (~ birthday_text s ->
         Birthday s =
           Raise (ValueError
             "Invalid date format for birthday. Birthday should be in the format DD.MM.YYYY"))) /\
  Birthday "1.1.2024" = Ok (mkField "1.1.2024") /\
  (forall s,
      In s ["30.02.2024"; "01.01.24"; "01.01.02024"; "001.01.2024"; "1.1.24"] ->
      Birthday s =
        Raise (ValueError
          "Invalid date format for birthday. Birthday should be in the format DD.MM.YYYY")).
Proof.
  assert (forall s,
             Birthday s <> Ok (mkField s) ->
             Birthday s =
               Raise (ValueError
                 "Invalid date format for birthday. Birthday should be in the format DD.MM.YYYY"))
    as Hno.
  { intros s H. destruct (Birthday_total s) as [E|E]; [contradiction | exact E]. }
  split; [|split; [|split]].
  - intros d m y Hd Hm Hy. split.
    + intro Hv. unfold Birthday, render_date.
      rewrite (strptime_valid (fmt2 d) (fmt2 m) d m y Hv); [reflexivity | |];
        now left.
    + intro Hv. apply Hno. unfold Birthday.
      destruct (strptime (render_date d m y)) as [dt|e] eqn:E.
      * elim Hv. apply (strptime_render_ok d m y dt Hd Hm Hy E).
      * destruct e; discriminate.
  - intro s. split.
    + apply Birthday_ok_iff.
    + intro H. apply Hno. intro E. apply H. now apply Birthday_ok_iff.
  - reflexivity.
  - intros s Hs. simpl in Hs.
    repeat (destruct Hs as [<-|Hs]; [reflexivity|]). contradiction.
Qed.

(** Witness for [Birthday]: 29 and 30 February 2024 in full, and 5.3.2024
    and 05.03.24 as strings. *)
Lemma Birthday_accepts_calendar_dates_witness :
  Birthday "29.02.2024" = Ok (mkField "29.02.2024") /\
  Birthday "30.02.2024" =
    Raise (ValueError
      "Invalid date format for birthday. Birthday should be in the format DD.MM.YYYY") /\
  Birthday "5.3.2024" = Ok (mkField "5.3.2024") /\
  Birthday "05.03.24" =
    Raise (ValueError
      "Invalid date format for birthday. Birthday should be in the format DD.MM.YYYY") /\
  Birthday "01.01.24" =
    Raise (ValueError
      "Invalid date format for birthday. Birthday should be in the format DD.MM.YYYY").
Proof.
  destruct Birthday_accepts_calendar_dates as (H1 & H2 & _ & H4).
  split; [|split; [|split; [|split]]].
  - apply (proj1 (H1 29 2 2024 ltac:(lia) ltac:(lia) ltac:(lia))).
    unfold valid_date. change (days_in_month 2024 2) with 29. lia.
  - apply (proj2 (H1 30 2 2024 ltac:(lia) ltac:(lia) ltac:(lia))).
    unfold valid_date. change (days_in_month 2024 2) with 29. lia.
  - apply (proj1 (H2 "5.3.2024")).
    exists "5", "3", 5, 3, 2024. split; [reflexivity|].
    split; [split; [lia | right; left; reflexivity]|].
    split; [split; [lia | right; reflexivity]|].
    unfold valid_date. change (days_in_month 2024 3) with 31. lia.
  - apply (proj2 (H2 "05.03.24")).
    intro H. apply Birthday_ok_iff in H. discriminate H.
  - apply H4. simpl. tauto.
Defined.

End Accepted.
